(** * Market-data service: indicators, quote cache and portfolio valuation

    A shallow embedding of [server/services/yahooFinance.js] (class
    [YahooFinanceService]) and of handlers of the two portfolio routers,
    with the properties of the technical-analysis engine stated over it.

    Numbers.  A JavaScript number is modelled by [num]: a finite value is an
    exact rational, and the three IEEE special values are kept, because the
    code reaches them (a division by zero, an arithmetic operation on
    [undefined]).  Rounding, overflow and the sign of zero are abstracted:
    finite arithmetic is exact and a zero divisor counts as [+0]. *)

From Stdlib Require Import QArith Qabs Lqa ZArith List Bool Lia String Ascii.
From stdpp Require Import gmap strings.
Import ListNotations.

Local Open Scope Q_scope.

(** ** JavaScript numbers and values *)

Module JS.

Inductive num : Type :=
| Fin (q : Q)
| PInf
| NInf
| NaN.

(** What an expression can evaluate to here: a number, or [undefined]
    (an array read out of range, a property that is absent). *)
Inductive value : Type :=
| VUndef
| VNum (n : num).

(** [ToNumber]: [undefined] converts to [NaN]. *)
Definition toNumber (v : value) : num :=
  match v with
  | VUndef => NaN
  | VNum n => n
  end.

Definition zero : num := Fin 0.

Definition neg (x : num) : num :=
  match x with
  | Fin a => Fin (- a)
  | PInf => NInf
  | NInf => PInf
  | NaN => NaN
  end.

(** [x + y] *)
Definition add (x y : num) : num :=
  match x, y with
  | NaN, _ | _, NaN => NaN
  | Fin a, Fin b => Fin (a + b)
  | PInf, NInf | NInf, PInf => NaN
  | PInf, _ | _, PInf => PInf
  | NInf, _ | _, NInf => NInf
  end.

(** [x - y] *)
Definition sub (x y : num) : num := add x (neg y).

(** The infinity that has the sign of [c], seen as the sign of a finite
    factor compared with zero; a zero factor gives [NaN]. *)
Definition signed_inf (c : comparison) (positive : bool) : num :=
  match c with
  | Eq => NaN
  | Gt => if positive then PInf else NInf
  | Lt => if positive then NInf else PInf
  end.

(** [x * y] *)
Definition mul (x y : num) : num :=
  match x, y with
  | NaN, _ | _, NaN => NaN
  | Fin a, Fin b => Fin (a * b)
  | Fin a, PInf | PInf, Fin a => signed_inf (a ?= 0) true
  | Fin a, NInf | NInf, Fin a => signed_inf (a ?= 0) false
  | PInf, PInf | NInf, NInf => PInf
  | PInf, NInf | NInf, PInf => NInf
  end.

(** [x / y] *)
Definition div (x y : num) : num :=
  match x, y with
  | NaN, _ | _, NaN => NaN
  | Fin a, Fin b =>
      match b ?= 0 with
      | Eq => signed_inf (a ?= 0) true
      | _ => Fin (a / b)
      end
  | Fin _, PInf | Fin _, NInf => Fin 0
  | PInf, Fin b => match b ?= 0 with Lt => NInf | _ => PInf end
  | NInf, Fin b => match b ?= 0 with Lt => PInf | _ => NInf end
  | PInf, PInf | PInf, NInf | NInf, PInf | NInf, NInf => NaN
  end.

(** [x < y]: false as soon as one side is [NaN]. *)
Definition lt (x y : num) : bool :=
  match x, y with
  | NaN, _ | _, NaN => false
  | Fin a, Fin b => match a ?= b with Lt => true | _ => false end
  | NInf, NInf | PInf, _ => false
  | NInf, _ | Fin _, PInf => true
  | Fin _, NInf => false
  end.

(** [x > y] *)
Definition gt (x y : num) : bool := lt y x.

(** [x === y] on numbers: [NaN] is not equal to itself. *)
Definition strict_eq (x y : num) : bool :=
  match x, y with
  | Fin a, Fin b => Qeq_bool a b
  | PInf, PInf | NInf, NInf => true
  | _, _ => false
  end.

(** [Math.abs] *)
Definition abs (x : num) : num :=
  match x with
  | Fin a => Fin (Qabs a)
  | PInf | NInf => PInf
  | NaN => NaN
  end.

Definition min2 (x y : num) : num :=
  match x, y with
  | NaN, _ | _, NaN => NaN
  | _, _ => if lt y x then y else x
  end.

Definition max2 (x y : num) : num :=
  match x, y with
  | NaN, _ | _, NaN => NaN
  | _, _ => if lt x y then y else x
  end.

(** [Math.min(...xs)]: [+Infinity] with no argument, [NaN] as soon as one
    argument is [NaN]. *)
Definition math_min (xs : list num) : num := fold_left min2 xs PInf.

(** [Math.max(...xs)] *)
Definition math_max (xs : list num) : num := fold_left max2 xs NInf.

(** [xs[i]]: [undefined] outside [0 .. length-1]. *)
Definition get (xs : list num) (i : Z) : value :=
  if (i <? 0)%Z then VUndef
  else match xs !! Z.to_nat i with
       | Some x => VNum x
       | None => VUndef
       end.

(** [xs.length] *)
Definition len (xs : list num) : Z := Z.of_nat (length xs).

(** [xs.slice(-n)] for a count [n]: the last [n] elements, the whole array
    when it is shorter, and the whole array for [n = 0] since [-0] is [0]. *)
Definition slice_last {A : Type} (n : nat) (xs : list A) : list A :=
  match n with
  | O => xs
  | _ => skipn (length xs - n) xs
  end.

(** [xs.reduce((a, b) => a + b, 0)] *)
Definition sum (xs : list num) : num := fold_left add xs zero.

(** Numeric equality of two results: the same special value, or finite
    values that are equal as rationals. *)
Definition same (x y : num) : Prop :=
  match x, y with
  | Fin a, Fin b => a == b
  | PInf, PInf | NInf, NInf | NaN, NaN => True
  | _, _ => False
  end.

Definition is_fin (x : num) : bool :=
  match x with Fin _ => true | _ => false end.

Definition is_nan (x : num) : bool :=
  match x with NaN => true | _ => false end.

End JS.

Import JS.

(** ** IndicatorLibrary: the [calculate*] helper methods *)

(** A count ([period], an array length) as a number. *)
Definition of_count (n : nat) : num := Fin (inject_Z (Z.of_nat n)).

(** A well-formed price sequence holds finite numbers only. *)
Definition well_formed (prices : list num) : bool := forallb is_fin prices.

Definition calculatePriceChange (prices : list num) (days : nat) : num :=
  if (len prices <? Z.of_nat days)%Z then zero
  else
    let current := get prices (len prices - 1) in
    let previous := get prices (len prices - Z.of_nat days - 1) in
    mul (div (sub (toNumber current) (toNumber previous)) (toNumber previous))
        (Fin 100).

Definition calculateSMA (prices : list num) (period : nat) : num :=
  if (len prices <? Z.of_nat period)%Z then zero
  else
    let recentPrices := slice_last period prices in
    div (sum recentPrices) (of_count (length recentPrices)).

(** The loop of [calculateRSI]: [prev] is [prices[i-1]], [rest] the prices
    from index [i] on; each round pushes one gain and one loss. *)
Fixpoint rsi_loop (prev : num) (rest gains losses : list num)
  : list num * list num :=
  match rest with
  | [] => (gains, losses)
  | p :: rest' =>
      let change := sub p prev in
      rsi_loop p rest'
        (gains ++ [if gt change zero then change else zero])
        (losses ++ [if lt change zero then abs change else zero])
  end.

Definition rsi_gains_losses (prices : list num) : list num * list num :=
  match prices with
  | [] => ([], [])
  | p0 :: rest => rsi_loop p0 rest [] []
  end.

(** The local constants [avgGain] and [avgLoss] of [calculateRSI]. *)
Definition rsi_avgGain (prices : list num) (period : nat) : num :=
  div (sum (slice_last period (fst (rsi_gains_losses prices)))) (of_count period).

Definition rsi_avgLoss (prices : list num) (period : nat) : num :=
  div (sum (slice_last period (snd (rsi_gains_losses prices)))) (of_count period).

Definition calculateRSI (prices : list num) (period : nat) : num :=
  if (len prices <? Z.of_nat period + 1)%Z then Fin 50
  else
    let avgGain := rsi_avgGain prices period in
    let avgLoss := rsi_avgLoss prices period in
    if strict_eq avgLoss zero then Fin 100
    else
      let rs := div avgGain avgLoss in
      sub (Fin 100) (div (Fin 100) (add (Fin 1) rs)).

Definition calculateSupportLevel (prices : list num) : value :=
  if (len prices <? 20)%Z then get prices (len prices - 1)
  else
    let recentPrices := slice_last 20 prices in
    VNum (math_min recentPrices).

Definition calculateResistanceLevel (prices : list num) : value :=
  if (len prices <? 20)%Z then get prices (len prices - 1)
  else
    let recentPrices := slice_last 20 prices in
    VNum (math_max recentPrices).

(** The concrete series of the specification. *)
Definition sample_prices : list num :=
  map (fun z => Fin (inject_Z z)) [100; 102; 101; 105; 107; 106; 110]%Z.

(** ** The world the service runs in

    The clock read by [Date.now()], the external quote provider, the
    service's cache ([this.cache], a [Map] from key to entry) and the log of
    the calls made to the provider.  Time passes only while a call to the
    provider is awaited and between two requests ([elapse]). *)

Inductive result (A : Type) : Type :=
| Ok (a : A)
| Err (msg : string).
Arguments Ok {A} a.
Arguments Err {A} msg.

(** The fields of the provider's answer that the service computes with; the
    remaining ones (names, market capitalisation, sector, 52-week range, ...)
    are copied to the result unchanged and are left out. *)
Module RawQuote.
Record t : Type := mk {
  symbol : string;
  regularMarketPrice : num;
  regularMarketPreviousClose : num;
  regularMarketChangePercent : num;
  regularMarketVolume : num
}.
End RawQuote.

(** The result object built by [getStockQuote]. *)
Module Quote.
Record t : Type := mk {
  symbol : string;
  currentPrice : num;
  previousClose : num;
  change : num;
  changePercent : num;
  volume : num;
  timestamp : Z
}.
End Quote.

(** What [yahooFinance.quote(symbol)] does: it settles after [delay]
    milliseconds, with a quote or with a rejection ([None]). *)
Record Reply : Type := mkReply {
  delay : Z;
  outcome : option RawQuote.t
}.

Record CacheEntry : Type := mkEntry {
  data : Quote.t;
  timestamp : Z
}.

Record World : Type := mkWorld {
  clock : Z;
  market : string -> Reply;
  cache : gmap string CacheEntry;
  calls : list string
}.

Definition set_cache (c : gmap string CacheEntry) (w : World) : World :=
  mkWorld (clock w) (market w) c (calls w).

Definition log_call (symbol : string) (w : World) : World :=
  mkWorld (clock w) (market w) (cache w) (calls w ++ [symbol]).

(** [d] milliseconds pass. *)
Definition elapse (d : Z) (w : World) : World :=
  mkWorld (clock w + d)%Z (market w) (cache w) (calls w).

(** [this.cacheTimeout] *)
Definition cacheTimeout : Z := 5 * 60 * 1000.

(** ** QuoteCache: [getCached] and [setCached] *)

Definition getCached (key : string) (w : World) : option Quote.t :=
  match cache w !! key with
  | Some cached =>
      if (clock w - timestamp cached <? cacheTimeout)%Z then Some (data cached)
      else None
  | None => None
  end.

Definition setCached (key : string) (d : Quote.t) (w : World) : World :=
  set_cache (<[key := mkEntry d (clock w)]> (cache w)) w.

Definition clearCache (w : World) : World := set_cache ∅ w.

(** ** [getStockQuote]

    An [async] method runs synchronously up to its first [await]
    ([getStockQuote_begin]: the cache lookup and, on a miss, the call to the
    provider) and is resumed when the awaited promise settles
    ([getStockQuote_resume]). *)

Inductive Pending : Type :=
| Resolved (cached : Quote.t)
| Awaiting (symbol : string).

Definition quote_key (symbol : string) : string := "quote_" +:+ symbol.

Definition make_result (quote : RawQuote.t) (now : Z) : Quote.t :=
  Quote.mk
    (RawQuote.symbol quote)
    (RawQuote.regularMarketPrice quote)
    (RawQuote.regularMarketPreviousClose quote)
    (sub (RawQuote.regularMarketPrice quote) (RawQuote.regularMarketPreviousClose quote))
    (RawQuote.regularMarketChangePercent quote)
    (RawQuote.regularMarketVolume quote)
    now.

Definition getStockQuote_begin (symbol : string) (w : World) : Pending * World :=
  let cacheKey := quote_key symbol in
  match getCached cacheKey w with
  | Some cached => (Resolved cached, w)
  | None => (Awaiting symbol, log_call symbol w)
  end.

Definition getStockQuote_resume (p : Pending) (w : World) : result Quote.t * World :=
  match p with
  | Resolved cached => (Ok cached, w)
  | Awaiting symbol =>
      let reply := market w symbol in
      let w1 := elapse (delay reply) w in
      match outcome reply with
      | Some quote =>
          let result := make_result quote (clock w1) in
          (Ok result, setCached (quote_key symbol) result w1)
      | None => (Err ("Failed to fetch data for " +:+ symbol), w1)
      end
  end.

(** One awaited call: [await this.getStockQuote(symbol)]. *)
Definition getStockQuote (symbol : string) (w : World) : result Quote.t * World :=
  let '(p, w1) := getStockQuote_begin symbol w in
  getStockQuote_resume p w1.

(** ** [getMultipleQuotes]

    [symbols.map(symbol => this.getStockQuote(symbol))] starts every call
    before any answer arrives, so every cache lookup sees the cache as it is
    on entry; the answers are then delivered in the order of the calls.
    [Promise.all] rejects as soon as one of the promises rejects.  The
    fetches of a batch run together in the code; here their delays are added
    one after the other, so a clock reading taken inside a batch can be
    later than the real one. *)

Fixpoint begin_all (symbols : list string) (w : World) : list Pending * World :=
  match symbols with
  | [] => ([], w)
  | symbol :: rest =>
      let '(p, w1) := getStockQuote_begin symbol w in
      let '(ps, w2) := begin_all rest w1 in
      (p :: ps, w2)
  end.

Fixpoint resume_all (ps : list Pending) (w : World) : list (result Quote.t) * World :=
  match ps with
  | [] => ([], w)
  | p :: rest =>
      let '(r, w1) := getStockQuote_resume p w in
      let '(rs, w2) := resume_all rest w1 in
      (r :: rs, w2)
  end.

Fixpoint promise_all {A : Type} (rs : list (result A)) : result (list A) :=
  match rs with
  | [] => Ok []
  | Err msg :: _ => Err msg
  | Ok a :: rest =>
      match promise_all rest with
      | Ok l => Ok (a :: l)
      | Err msg => Err msg
      end
  end.

Definition getMultipleQuotes (symbols : list string) (w : World)
  : result (list Quote.t) * World :=
  let '(ps, w1) := begin_all symbols w in
  let '(rs, w2) := resume_all ps w1 in
  match promise_all rs with
  | Ok quotes => (Ok quotes, w2)
  | Err _ => (Err "Failed to fetch multiple stock quotes", w2)
  end.

(** ** PortfolioValuator: [calculatePortfolioValue] *)

(** A stored date: the one sent with the request, or the clock reading
    taken when the entry was made. *)
Inductive date : Type :=
| GivenDate (s : string)
| ClockDate (t : Z).

(** An entry of a user's portfolio, with the fields the [POST /add] handler
    gives it. *)
Module Holding.
Record t : Type := mk {
  id : Z;
  symbol : string;
  shares : num;
  purchasePrice : num;
  purchaseDate : date;
  avgPrice : num;
  currentPrice : num;
  totalValue : num;
  gainLoss : num;
  gainLossPercentage : num
}.
End Holding.

(** An element of the returned [holdings]: the object
    [{...holding, currentPrice, currentValue, gainLoss, gainLossPercent,
    dayChange, dayChangePercent}].  [spread] is the holding with the two
    properties it already had ([currentPrice], [gainLoss]) overwritten. *)
Module Valued.
Record t : Type := mk {
  spread : Holding.t;
  currentValue : num;
  gainLossPercent : num;
  dayChange : num;
  dayChangePercent : num
}.
End Valued.

(** The returned object.  The early return on an empty list has neither a
    [totalCost] nor a [timestamp] property: [None] is an absent property. *)
Module Valuation.
Record t : Type := mk {
  totalValue : num;
  totalCost : option num;
  totalGainLoss : num;
  totalGainLossPercent : num;
  holdings : list Valued.t;
  timestamp : option Z
}.
End Valuation.

Definition overwrite (holding : Holding.t) (currentPrice gainLoss : num) : Holding.t :=
  Holding.mk (Holding.id holding) (Holding.symbol holding) (Holding.shares holding)
    (Holding.purchasePrice holding) (Holding.purchaseDate holding)
    (Holding.avgPrice holding) currentPrice (Holding.totalValue holding)
    gainLoss (Holding.gainLossPercentage holding).

(** [quotes.find(q => q.symbol === holding.symbol)] *)
Definition find_quote (quotes : list Quote.t) (holding : Holding.t) : option Quote.t :=
  find (fun q => String.eqb (Quote.symbol q) (Holding.symbol holding)) quotes.

(** The object pushed for a holding that has a quote. *)
Definition value_holding (holding : Holding.t) (quote : Quote.t) : Valued.t :=
  let currentValue := mul (Holding.shares holding) (Quote.currentPrice quote) in
  let costBasis := mul (Holding.shares holding) (Holding.avgPrice holding) in
  let gainLoss := sub currentValue costBasis in
  let gainLossPercent := mul (div gainLoss costBasis) (Fin 100) in
  Valued.mk
    (overwrite holding (Quote.currentPrice quote) gainLoss)
    currentValue
    gainLossPercent
    (mul (Holding.shares holding) (Quote.change quote))
    (Quote.changePercent quote).

(** [costBasis] of a holding, as the loop computes it. *)
Definition costBasis (holding : Holding.t) : num :=
  mul (Holding.shares holding) (Holding.avgPrice holding).

(** The [for] loop over [holdings], from index [i] on, with the running
    [totalValue], [totalCost] and [updatedHoldings]. *)
Fixpoint valuation_loop (quotes : list Quote.t) (holdings : list Holding.t)
    (totalValue totalCost : num) (updatedHoldings : list Valued.t)
  : num * num * list Valued.t :=
  match holdings with
  | [] => (totalValue, totalCost, updatedHoldings)
  | holding :: rest =>
      match find_quote quotes holding with
      | Some quote =>
          let v := value_holding holding quote in
          valuation_loop quotes rest
            (add totalValue (Valued.currentValue v))
            (add totalCost (costBasis holding))
            (updatedHoldings ++ [v])
      | None => valuation_loop quotes rest totalValue totalCost updatedHoldings
      end
  end.

Definition empty_valuation : Valuation.t :=
  Valuation.mk zero None zero zero [] None.

Definition calculatePortfolioValue (holdings : list Holding.t) (w : World)
  : result Valuation.t * World :=
  match holdings with
  | [] => (Ok empty_valuation, w)
  | _ =>
      let symbols := map Holding.symbol holdings in
      match getMultipleQuotes symbols w with
      | (Ok quotes, w1) =>
          let '(totalValue, totalCost, updatedHoldings) :=
            valuation_loop quotes holdings zero zero [] in
          let totalGainLoss := sub totalValue totalCost in
          let totalGainLossPercent :=
            if gt totalCost zero then mul (div totalGainLoss totalCost) (Fin 100)
            else zero in
          (Ok (Valuation.mk totalValue (Some totalCost) totalGainLoss
                 totalGainLossPercent updatedHoldings (Some (clock w1))), w1)
      | (Err _, w1) => (Err "Failed to calculate portfolio value", w1)
      end
  end.

(** ** The portfolio router: [POST /add]

    The router that calls the service requires [yahooFinanceService] but
    declares no [portfolios]: the first statement of the handler that reads it,
    [if (!portfolios[userId])], throws a [ReferenceError], and the [catch] of
    the handler answers it with a 500.  What the handler does up to there is
    the validation of the body fields as they were sent and the quote fetch;
    the entry it builds in between is dropped with the exception.
    [merge_entry] and [store_entry] are the statements after that read, on
    the store they expect: they are never reached. *)

Record Response : Type := mkResponse {
  status : nat;
  body : option Valuation.t
}.

(** [!x] on a number: [0] and [NaN] are falsy. *)
Definition falsy (x : num) : bool :=
  match x with
  | Fin q => Qeq_bool q 0
  | NaN => true
  | _ => false
  end.

(** A field of the JSON body as it was sent: absent, a number or a string
    (the form of the client sends strings). *)
Inductive field : Type :=
| Absent
| NumberField (n : num)
| StringField (s : string).

(** [!x] on a field: an absent field, [0], [NaN] and the empty string are
    falsy; every other string is truthy, ["0"] included. *)
Definition negated (x : field) : bool :=
  match x with
  | Absent => true
  | NumberField n => falsy n
  | StringField s => String.eqb s ""
  end.

Record AddRequest : Type := mkAdd {
  req_symbol : field;
  req_shares : field;
  req_purchasePrice : field;
  req_purchaseDate : field
}.

Definition upper_char (c : ascii) : ascii :=
  let n := nat_of_ascii c in
  if ((97 <=? n) && (n <=? 122))%nat then ascii_of_nat (n - 32) else c.

(** [String.prototype.toUpperCase], on ASCII letters. *)
Fixpoint toUpperCase (s : string) : string :=
  match s with
  | EmptyString => EmptyString
  | String c rest => String (upper_char c) (toUpperCase rest)
  end.

(** [array.findIndex(pred)]: [None] stands for [-1]. *)
Fixpoint findIndex {A : Type} (pred : A -> bool) (xs : list A) : option nat :=
  match xs with
  | [] => None
  | x :: rest => if pred x then Some O else option_map S (findIndex pred rest)
  end.

(** [!symbol || !shares || !purchasePrice] *)
Definition refused (req : AddRequest) : bool :=
  negated (req_symbol req) || negated (req_shares req) || negated (req_purchasePrice req).

(** The handler.  A truthy [symbol] that is not a string has no
    [toUpperCase]: the call throws before the provider is asked.  After the
    quote fetch the handler builds [stockEntry] and then reads [portfolios]:
    the [ReferenceError] is answered with the same 500 as a failed fetch. *)
Definition post_add (req : AddRequest) (w : World) : Response * World :=
  if refused req then (mkResponse 400 None, w)
  else
    match req_symbol req with
    | StringField symbol =>
        match getStockQuote (toUpperCase symbol) w with
        | (Err _, w1) => (mkResponse 500 None, w1)
        | (Ok stockQuote, w1) => (mkResponse 500 None, w1)
        end
    | _ => (mkResponse 500 None, w)
    end.

(** The object that the statements after the read of [portfolios] would
    store over an existing entry of the same symbol. *)
Definition merge_entry (existing stockEntry : Holding.t) (stockQuote : Quote.t) : Holding.t :=
  let totalShares := add (Holding.shares existing) (Holding.shares stockEntry) in
  let avgPurchasePrice :=
    div (add (mul (Holding.shares existing) (Holding.avgPrice existing))
             (mul (Holding.shares stockEntry) (Holding.avgPrice stockEntry)))
        totalShares in
  Holding.mk
    (Holding.id existing)
    (Holding.symbol existing)
    totalShares
    (Holding.purchasePrice existing)
    (Holding.purchaseDate existing)
    avgPurchasePrice
    (Quote.currentPrice stockQuote)
    (mul totalShares (Quote.currentPrice stockQuote))
    (mul (sub (Quote.currentPrice stockQuote) avgPurchasePrice) totalShares)
    (mul (div (sub (Quote.currentPrice stockQuote) avgPurchasePrice) avgPurchasePrice) (Fin 100)).

(** The update of [portfolios[userId]] that those statements would make. *)
Definition store_entry (portfolio : list Holding.t) (stockEntry : Holding.t)
    (stockQuote : Quote.t) : list Holding.t :=
  match findIndex (fun stock => String.eqb (Holding.symbol stock) (Holding.symbol stockEntry))
          portfolio with
  | Some existingIndex =>
      match portfolio !! existingIndex with
      | Some existing => <[existingIndex := merge_entry existing stockEntry stockQuote]> portfolio
      | None => portfolio
      end
  | None => portfolio ++ [stockEntry]
  end.

(** ** More of the service: volumes, usable prices, the market overview *)

Definition calculateAverageVolume (volumes : list num) (period : nat) : num :=
  if (len volumes <? Z.of_nat period)%Z then zero
  else
    let recentVolumes := slice_last period volumes in
    div (sum recentVolumes) (of_count (length recentVolumes)).

(** The [volumeRatio] field of [getStockStatistics]:
    [avg > 0 ? volumes[volumes.length - 1] / avg : 0] with
    [avg = this.calculateAverageVolume(volumes, 20)]. *)
Definition volumeRatio (volumes : list num) : num :=
  if gt (calculateAverageVolume volumes 20) zero
  then div (toNumber (get volumes (len volumes - 1))) (calculateAverageVolume volumes 20)
  else zero.

(** The filter [p => p && !isNaN(p)] of [getStockStatistics], on what a bar
    holds under [close] or [volume]: a number, or nothing ([undefined],
    [null]).  Zero and [NaN] are dropped with the missing values. *)
Definition usable (p : value) : bool :=
  match p with
  | VNum n => negb (falsy n) && negb (is_nan n)
  | VUndef => false
  end.

(** [history.data.map(d => d.close).filter(p => p && !isNaN(p))] on the
    column of closes. *)
Fixpoint usable_numbers (column : list value) : list num :=
  match column with
  | [] => []
  | p :: rest =>
      if usable p then toNumber p :: usable_numbers rest else usable_numbers rest
  end.

(** The object built by [formatIndexData] (its [name] is the quote's
    [companyName], which is not modelled). *)
Record IndexData : Type := mkIndex {
  index_symbol : string;
  index_price : num;
  index_change : num;
  index_changePercent : num
}.

(** [formatIndexData(quote)]: [None] stands for [null]. *)
Definition formatIndexData (quote : option Quote.t) : option IndexData :=
  match quote with
  | None => None
  | Some q =>
      Some (mkIndex (Quote.symbol q) (Quote.currentPrice q) (Quote.change q)
              (Quote.changePercent q))
  end.

Record MarketData : Type := mkMarket {
  sp500 : option IndexData;
  dowJones : option IndexData;
  nasdaq : option IndexData;
  russell2000 : option IndexData;
  market_timestamp : Z
}.

(** The service with the one cache entry that is not a quote: the value kept
    under the key [market_overview] of [this.cache], with its timestamp.  No
    other key of the cache starts like it, so it is kept beside the quotes. *)
Record Service : Type := mkService {
  world : World;
  overview : option (MarketData * Z)
}.

(** [this.getCached('market_overview')] *)
Definition getCachedOverview (sv : Service) : option MarketData :=
  match overview sv with
  | Some (d, t) =>
      if (clock (world sv) - t <? cacheTimeout)%Z then Some d else None
  | None => None
  end.

Definition indices : list string := ["^GSPC"; "^DJI"; "^IXIC"; "^RUT"].

(** [indexQuotes.find(q => q.symbol === name)] *)
Definition find_index (indexQuotes : list Quote.t) (name : string) : option Quote.t :=
  find (fun q => String.eqb (Quote.symbol q) name) indexQuotes.

Definition getMarketOverview (sv : Service) : result MarketData * Service :=
  match getCachedOverview sv with
  | Some cached => (Ok cached, sv)
  | None =>
      match getMultipleQuotes indices (world sv) with
      | (Ok indexQuotes, w1) =>
          let marketData :=
            mkMarket (formatIndexData (find_index indexQuotes "^GSPC"))
                     (formatIndexData (find_index indexQuotes "^DJI"))
                     (formatIndexData (find_index indexQuotes "^IXIC"))
                     (formatIndexData (find_index indexQuotes "^RUT"))
                     (clock w1) in
          (Ok marketData, mkService w1 (Some (marketData, clock w1)))
      | (Err _, w1) => (Err "Failed to fetch market overview", mkService w1 (overview sv))
      end
  end.

(** ** The helper [calculateTotalGainLossPercentage] of the router *)

Definition calculateTotalGainLossPercentage (portfolio : list Holding.t) : num :=
  match portfolio with
  | [] => zero
  | _ =>
      let totalInvested :=
        fold_left (fun sum stock =>
                     add sum (mul (Holding.shares stock) (Holding.purchasePrice stock)))
          portfolio zero in
      let totalGainLoss :=
        fold_left (fun sum stock => add sum (Holding.gainLoss stock)) portfolio zero in
      if gt totalInvested zero then mul (div totalGainLoss totalInvested) (Fin 100)
      else zero
  end.

(** ** The portfolio router with the in-memory store: [PUT /update/:stockId] and
    [DELETE /remove/:stockId]

    The second module of the file is the router with the in-memory store,
    [let portfolios = {}].  Its store for one user is [portfolios[userId]]:
    [None] when the user has no portfolio yet.  An entry has the fields its
    [POST /add] gives it; its [id] is a string, the text of the clock reading
    taken when it was made, and a [stockId] of the path is compared with it as
    a string.  [parseFloat] is a number on a number; what it makes of a string
    is left open ([parse_text]). *)

Module Stock.
Record t : Type := mk {
  id : string;
  symbol : string;
  shares : num;
  purchasePrice : num;
  purchaseDate : date;
  currentPrice : num;
  totalValue : num;
  gainLoss : num;
  gainLossPercentage : num
}.
End Stock.

(** [calculateTotalValue(portfolio)] *)
Definition calculateTotalValue (portfolio : list Stock.t) : num :=
  fold_left (fun sum stock => add sum (Stock.totalValue stock)) portfolio zero.

(** The body of an update. *)
Record UpdateRequest : Type := mkUpdate {
  upd_shares : field;
  upd_purchasePrice : field
}.

(** What the two handlers answer: a 404 with its message, or the portfolio
    and its total value. *)
Inductive Answer : Type :=
| NotFound (error : string)
| Listed (portfolio : list Stock.t) (totalValue : num).

(** [stock => stock.id === stockId] *)
Definition has_id (stockId : string) (stock : Stock.t) : bool :=
  String.eqb (Stock.id stock) stockId.

Section Update.

Variable parse_text : string -> num.

(** [parseFloat(x)]: [NaN] on [undefined]. *)
Definition parseFloat (x : field) : num :=
  match x with
  | Absent => NaN
  | NumberField n => n
  | StringField s => parse_text s
  end.

(** The entry after the assignments of the update handler:
    [if (shares !== undefined) stock.shares = parseFloat(shares)], the same
    for [purchasePrice], then the three recomputed fields. *)
Definition update_entry (stock : Stock.t) (req : UpdateRequest) : Stock.t :=
  let shares :=
    match upd_shares req with
    | Absent => Stock.shares stock
    | x => parseFloat x
    end in
  let purchasePrice :=
    match upd_purchasePrice req with
    | Absent => Stock.purchasePrice stock
    | x => parseFloat x
    end in
  let currentPrice := Stock.currentPrice stock in
  Stock.mk (Stock.id stock) (Stock.symbol stock) shares purchasePrice
    (Stock.purchaseDate stock) currentPrice
    (mul shares currentPrice)
    (mul (sub currentPrice purchasePrice) shares)
    (mul (div (sub currentPrice purchasePrice) purchasePrice) (Fin 100)).

Definition put_update (stockId : string) (req : UpdateRequest) (store : option (list Stock.t))
  : Answer * option (list Stock.t) :=
  match store with
  | None => (NotFound "Portfolio not found", store)
  | Some portfolio =>
      match findIndex (has_id stockId) portfolio with
      | None => (NotFound "Stock not found in portfolio", store)
      | Some stockIndex =>
          match portfolio !! stockIndex with
          | Some stock =>
              let portfolio' := <[stockIndex := update_entry stock req]> portfolio in
              (Listed portfolio' (calculateTotalValue portfolio'), Some portfolio')
          | None => (NotFound "Stock not found in portfolio", store)
          end
      end
  end.

End Update.

Definition delete_remove (stockId : string) (store : option (list Stock.t))
  : Answer * option (list Stock.t) :=
  match store with
  | None => (NotFound "Portfolio not found", store)
  | Some portfolio =>
      match findIndex (has_id stockId) portfolio with
      | None => (NotFound "Stock not found in portfolio", store)
      | Some stockIndex =>
          let portfolio' := delete stockIndex portfolio in
          (Listed portfolio' (calculateTotalValue portfolio'), Some portfolio')
      end
  end.

(** ** Sample data

    The scenario of the specification: ten shares of [X] bought at 50, quoted
    at 60 with a day change of 2 (3.45 %).  The provider knows [X] only. *)

Definition rawX : RawQuote.t :=
  RawQuote.mk "X" (Fin 60) (Fin 58) (Fin (345 # 100)) (Fin 1000).

Definition sample_market (s : string) : Reply :=
  if String.eqb s "X" then mkReply 120 (Some rawX) else mkReply 80 None.

Definition world0 : World := mkWorld 1000 sample_market ∅ [].

Definition holdingX : Holding.t :=
  Holding.mk 1 "X" (Fin 10) (Fin 50) (ClockDate 1) (Fin 50) (Fin 55) (Fin 550) (Fin 50) (Fin 10).

Definition holdingY : Holding.t :=
  Holding.mk 2 "Y" (Fin 5) (Fin 20) (ClockDate 2) (Fin 20) (Fin 20) (Fin 100) (Fin 0) (Fin 0).

(** A position whose shares were set to zero. *)
Definition holdingZero : Holding.t :=
  Holding.mk 3 "X" (Fin 0) (Fin 50) (ClockDate 3) (Fin 50) (Fin 55) (Fin 0) (Fin 0) (Fin 0).

(** Further sample data: monotone series, a column of closes with a
    missing, a zero and a [NaN] entry, twenty-one volumes, a provider that
    knows every symbol, two holdings, a request and two entries of the
    in-memory router's store. *)

Definition rising_prices : list num := map (fun z => Fin (inject_Z z)) [10; 11; 11; 13]%Z.

Definition falling_prices : list num := map (fun z => Fin (inject_Z z)) [13; 12; 10; 9]%Z.

Definition sample_column : list value :=
  [VNum (Fin 10); VUndef; VNum (Fin 0); VNum NaN; VNum (Fin 12); VNum (Fin 15)].

Definition sample_volumes : list num := repeat (Fin 1000) 20 ++ [Fin 3000].

Definition index_market (s : string) : Reply :=
  mkReply 50 (Some (RawQuote.mk s (Fin 100) (Fin 99) (Fin 1) (Fin 5))).

Definition service0 : Service := mkService (mkWorld 0 index_market ∅ []) None.

Definition two_holdings : list Holding.t := [holdingX; holdingY].

(** A request to add ten shares of [x] bought at 100, as numbers. *)
Definition sample_add : AddRequest :=
  mkAdd (StringField "x") (NumberField (Fin 10)) (NumberField (Fin 100)) Absent.

(** Two entries of the in-memory router's store. *)
Definition stockA : Stock.t :=
  Stock.mk "1700000000001" "AAPL" (Fin 10) (Fin 100) (ClockDate 1) (Fin 150) (Fin 1500)
    (Fin 500) (Fin 50).

Definition stockB : Stock.t :=
  Stock.mk "1700000000002" "MSFT" (Fin 5) (Fin 300) (ClockDate 2) (Fin 310) (Fin 1550)
    (Fin 50) (Fin (10 # 3)).

Definition two_stocks : list Stock.t := [stockA; stockB].

(** A stand-in, for the sample data, for what [parseFloat] makes of a
    string: 25 on ["25"], [NaN] on any other string. *)
Definition sample_parse (s : string) : num :=
  if String.eqb s "25" then Fin 25 else NaN.

(** ** Vocabulary of the statements *)

(** A finite number that is not negative. *)
Definition nonneg (x : num) : Prop :=
  match x with
  | Fin q => 0 <= q
  | _ => False
  end.

(** No usable entry under [key]: none at all, or one that has expired. *)
Definition expired (key : string) (w : World) : Prop :=
  cache w !! key = None
  \/ exists e, cache w !! key = Some e /\ (cacheTimeout <= clock w - timestamp e)%Z.

(** What the call for [s] starts as, seen from the world [w] on entry. *)
Definition pending_of (w : World) (s : string) : Pending :=
  match getCached (quote_key s) w with
  | Some cached => Resolved cached
  | None => Awaiting s
  end.

(** The quote [q] is what symbol [s] resolves to from the world [w]: the
    fresh cached one, or else the provider's answer, stamped at some time. *)
Definition settles (w : World) (s : string) (q : Quote.t) : Prop :=
  getCached (quote_key s) w = Some q
  \/ (getCached (quote_key s) w = None
      /\ exists raw t, outcome (market w s) = Some raw /\ q = make_result raw t).

(** The fetch for [s] fails: nothing fresh is cached and the provider rejects. *)
Definition rejected (w : World) (s : string) : Prop :=
  getCached (quote_key s) w = None /\ outcome (market w s) = None.

(** Every cached quote is what the provider answers for its symbol: the
    quotes have not changed since they were stored. *)
Definition coherent (w : World) : Prop :=
  forall s e, cache w !! quote_key s = Some e ->
    exists raw t, outcome (market w s) = Some raw /\ data e = make_result raw t.

(** How a started call ends, given the provider [m]. *)
Definition settle (m : string -> Reply) (p : Pending) (r : result Quote.t) : Prop :=
  match p with
  | Resolved cached => r = Ok cached
  | Awaiting s =>
      match outcome (m s) with
      | Some raw => exists t, r = Ok (make_result raw t)
      | None => r = Err ("Failed to fetch data for " +:+ s)
      end
  end.

(** The holdings that have a quote carrying their symbol, each with the first
    such quote, in the order of the portfolio. *)
Fixpoint included (quotes : list Quote.t) (holdings : list Holding.t)
  : list (Holding.t * Quote.t) :=
  match holdings with
  | [] => []
  | holding :: rest =>
      match find_quote quotes holding with
      | Some quote => (holding, quote) :: included quotes rest
      | None => included quotes rest
      end
  end.

(** The object pushed for a holding paired with its quote. *)
Definition value_pair (hq : Holding.t * Quote.t) : Valued.t :=
  value_holding (fst hq) (snd hq).

(** The valuation without its [timestamp]. *)
Definition untimed (v : Valuation.t) : Valuation.t :=
  Valuation.mk (Valuation.totalValue v) (Valuation.totalCost v)
    (Valuation.totalGainLoss v) (Valuation.totalGainLossPercent v)
    (Valuation.holdings v) None.

(** A quote without its [timestamp]. *)
Definition timeless (q : Quote.t) : Quote.t :=
  Quote.mk (Quote.symbol q) (Quote.currentPrice q) (Quote.previousClose q)
    (Quote.change q) (Quote.changePercent q) (Quote.volume q) 0.

(** The result of a successful valuation, from the quotes of the batch. *)
Definition valuation_of (quotes : list Quote.t) (holdings : list Holding.t) (now : Z)
  : Valuation.t :=
  let inc := included quotes holdings in
  let totalValue := sum (map (fun hq => Valued.currentValue (value_pair hq)) inc) in
  let totalCost := sum (map (fun hq => costBasis (fst hq)) inc) in
  Valuation.mk totalValue (Some totalCost) (sub totalValue totalCost)
    (if gt totalCost zero then mul (div (sub totalValue totalCost) totalCost) (Fin 100)
     else zero)
    (map value_pair inc) (Some now).

(** The position held in [symbol]: the shares and the average price of the
    first entry of the portfolio with that symbol. *)
Definition position (symbol : string) (portfolio : list Holding.t) : option (num * num) :=
  option_map (fun h => (Holding.shares h, Holding.avgPrice h))
    (find (fun stock => String.eqb (Holding.symbol stock) symbol) portfolio).

(** The merged position: total shares and weighted average price. *)
Definition merged (old : num * num) (addedShares addedPrice : num) : num * num :=
  (add (fst old) addedShares,
   div (add (mul (fst old) (snd old)) (mul addedShares addedPrice))
       (add (fst old) addedShares)).

(** Two positions with numerically equal shares and average price. *)
Definition same_position (a b : num * num) : Prop :=
  same (fst a) (fst b) /\ same (snd a) (snd b).

(** A series in which no price is below the one before it ([lt] is the
    comparison of the code). *)
Fixpoint never_falls_from (prev : num) (rest : list num) : bool :=
  match rest with
  | [] => true
  | p :: rest' => negb (lt p prev) && never_falls_from p rest'
  end.

Definition never_falls (prices : list num) : bool :=
  match prices with
  | [] => true
  | p0 :: rest => never_falls_from p0 rest
  end.

(** A series in which every price is below the one before it. *)
Fixpoint always_falls_from (prev : num) (rest : list num) : bool :=
  match rest with
  | [] => true
  | p :: rest' => lt p prev && always_falls_from p rest'
  end.

Definition always_falls (prices : list num) : bool :=
  match prices with
  | [] => true
  | p0 :: rest => always_falls_from p0 rest
  end.

(** A finite number that is positive. *)
Definition positive (x : num) : Prop :=
  match x with
  | Fin q => 0 < q
  | _ => False
  end.

(** The provider answers under the symbol it was asked for, and so do the
    cached quotes. *)
Definition echoes (w : World) : Prop :=
  (forall s raw, outcome (market w s) = Some raw -> RawQuote.symbol raw = s)
  /\ (forall s e, cache w !! quote_key s = Some e -> Quote.symbol (data e) = s).

(** Prices are finite numbers, at the provider and in the cache. *)
Definition finite_quotes (w : World) : Prop :=
  (forall s raw, outcome (market w s) = Some raw ->
                 is_fin (RawQuote.regularMarketPrice raw) = true)
  /\ (forall k e, cache w !! k = Some e -> is_fin (Quote.currentPrice (data e)) = true).

(** A holding whose shares and average price are finite numbers. *)
Definition finite_holding (h : Holding.t) : bool :=
  is_fin (Holding.shares h) && is_fin (Holding.avgPrice h).

(** * Properties *)

(** ** Arrays *)

Lemma get_in_range (xs : list num) (i : nat) (x : num) :
  xs !! i = Some x -> get xs (Z.of_nat i) = VNum x.
Proof.
  intros H. unfold get.
  destruct (Z.ltb_spec (Z.of_nat i) 0); [lia |].
  rewrite Nat2Z.id, H. reflexivity.
Qed.

Lemma get_negative (xs : list num) (i : Z) : (i < 0)%Z -> get xs i = VUndef.
Proof.
  intros H. unfold get. destruct (Z.ltb_spec i 0); [reflexivity | lia].
Qed.

Lemma get_last (xs : list num) (x : num) :
  last xs = Some x -> get xs (len xs - 1) = VNum x.
Proof.
  intros H. rewrite last_lookup in H.
  assert (Hl : (0 < length xs)%nat).
  { apply lookup_lt_Some in H. lia. }
  unfold len. replace (Z.of_nat (length xs) - 1)%Z with (Z.of_nat (Nat.pred (length xs))) by lia.
  apply get_in_range, H.
Qed.

Lemma well_formed_Forall (xs : list num) :
  well_formed xs = true <-> Forall (fun x => exists q, x = Fin q) xs.
Proof.
  unfold well_formed. rewrite forallb_forall, Forall_forall.
  split; intros H x Hx.
  - apply list_elem_of_In in Hx. specialize (H x Hx). destruct x; try discriminate. eauto.
  - apply list_elem_of_In in Hx. destruct (H x Hx) as [q ->]. reflexivity.
Qed.

(** A well-formed sequence is the image of a list of rationals. *)
Lemma well_formed_map (xs : list num) :
  well_formed xs = true -> exists qs, xs = map Fin qs.
Proof.
  induction xs as [| x xs IH]; intros H.
  - exists []. reflexivity.
  - simpl in H. apply andb_prop in H as [Hx Hxs].
    destruct (IH Hxs) as [qs ->]. destruct x; try discriminate.
    exists (q :: qs). reflexivity.
Qed.

Lemma slice_last_map {A B : Type} (f : A -> B) (n : nat) (xs : list A) :
  slice_last n (map f xs) = map f (slice_last n xs).
Proof.
  destruct n; simpl; [reflexivity |].
  rewrite length_map, skipn_map. reflexivity.
Qed.

Lemma slice_last_length {A : Type} (n : nat) (xs : list A) :
  (0 < n <= length xs)%nat -> length (slice_last n xs) = n.
Proof.
  intros H. destruct n; [lia |]. simpl. rewrite length_skipn. lia.
Qed.

Lemma slice_last_subset {A : Type} (n : nat) (xs : list A) (x : A) :
  In x (slice_last n xs) -> In x xs.
Proof.
  destruct n; simpl; [tauto |].
  intros H. rewrite <- (firstn_skipn (length xs - S n) xs).
  apply in_or_app. right. exact H.
Qed.

(** ** [calculatePriceChange] *)

Lemma sub_NaN_r (x : num) : sub x NaN = NaN.
Proof. destruct x; reflexivity. Qed.

Lemma calculatePriceChange_short (prices : list num) (days : nat) :
  (length prices < days)%nat -> calculatePriceChange prices days = zero.
Proof.
  intros H. unfold calculatePriceChange, len.
  destruct (Z.ltb_spec (Z.of_nat (length prices)) (Z.of_nat days)); [reflexivity | lia].
Qed.

(** With more than [days] prices both reads are in range and the result is
    the relative change, in percent. *)
Lemma calculatePriceChange_long (prices : list num) (days : nat) (current previous : num) :
  (days < length prices)%nat ->
  last prices = Some current ->
  prices !! (length prices - 1 - days)%nat = Some previous ->
  calculatePriceChange prices days
  = mul (div (sub current previous) previous) (Fin 100).
Proof.
  intros Hlen Hlast Hprev. unfold calculatePriceChange.
  unfold len at 1.
  destruct (Z.ltb_spec (Z.of_nat (length prices)) (Z.of_nat days)); [lia |].
  rewrite (get_last _ _ Hlast).
  replace (len prices - Z.of_nat days - 1)%Z
    with (Z.of_nat (length prices - 1 - days)) by (unfold len; lia).
  rewrite (get_in_range _ _ _ Hprev). reflexivity.
Qed.

Example calculatePriceChange_sample :
  same (calculatePriceChange sample_prices 3) (Fin ((110 - 105) / 105 * 100)).
Proof. vm_compute. reflexivity. Qed.

(** C3.  With exactly [days] prices the guard [prices.length < days] does not
    fire, [prices[prices.length - days - 1]] is [prices[-1]], that is
    [undefined], and the result is [NaN]: not the [0] the specification
    promises for [len(prices) <= daysBack]. *)
Theorem calculatePriceChange_exact_length (prices : list num) :
  calculatePriceChange prices (length prices) = NaN
  /\ calculatePriceChange prices (length prices) <> zero.
Proof.
  assert (H : calculatePriceChange prices (length prices) = NaN).
  { unfold calculatePriceChange, len.
    rewrite Z.ltb_irrefl.
    rewrite (get_negative prices (Z.of_nat (length prices) - Z.of_nat (length prices) - 1)) by lia.
    simpl toNumber. rewrite sub_NaN_r. reflexivity. }
  split; [exact H | rewrite H; discriminate].
Qed.

Example calculatePriceChange_three_prices :
  calculatePriceChange [Fin 100; Fin 102; Fin 101] 3 = NaN.
Proof. reflexivity. Qed.

(** ** Finite, non-negative numbers *)

Lemma nonneg_Fin (x : num) : nonneg x -> exists q, x = Fin q /\ 0 <= q.
Proof. destruct x; simpl; try tauto. eauto. Qed.

Lemma nonneg_add (x y : num) : nonneg x -> nonneg y -> nonneg (add x y).
Proof. destruct x, y; simpl; try tauto. intros. lra. Qed.

Lemma nonneg_sum_from (xs : list num) (acc : num) :
  nonneg acc -> Forall nonneg xs -> nonneg (fold_left add xs acc).
Proof.
  revert acc. induction xs as [| x xs IH]; intros acc Hacc Hxs; simpl.
  - exact Hacc.
  - inversion Hxs; subst. apply IH; [apply nonneg_add |]; assumption.
Qed.

Lemma nonneg_sum (xs : list num) : Forall nonneg xs -> nonneg (sum xs).
Proof. apply nonneg_sum_from. simpl. lra. Qed.

Lemma Forall_slice_last {A : Type} (P : A -> Prop) (n : nat) (xs : list A) :
  Forall P xs -> Forall P (slice_last n xs).
Proof.
  rewrite !Forall_forall. intros H x Hx. apply H.
  apply list_elem_of_In. apply list_elem_of_In in Hx.
  eapply slice_last_subset, Hx.
Qed.

Lemma of_count_pos (n : nat) : (0 < n)%nat -> 0 < inject_Z (Z.of_nat n).
Proof.
  intros H. change 0 with (inject_Z 0). rewrite <- Zlt_Qlt. lia.
Qed.

(** Dividing by a positive finite number stays finite. *)
Lemma div_Fin_pos (a b : Q) : 0 < b -> div (Fin a) (Fin b) = Fin (a / b).
Proof.
  intros H. simpl. apply Qgt_alt in H. rewrite H. reflexivity.
Qed.

Lemma nonneg_div_count (x : num) (n : nat) :
  (0 < n)%nat -> nonneg x -> nonneg (div x (of_count n)).
Proof.
  intros Hn Hx. apply nonneg_Fin in Hx as (q & -> & Hq).
  unfold of_count. pose proof (of_count_pos n Hn) as Hp.
  rewrite div_Fin_pos by exact Hp. simpl.
  apply Qle_shift_div_l; [exact Hp | lra].
Qed.

(** ** [calculateRSI] *)

Lemma gain_nonneg (change : num) :
  is_fin change = true -> nonneg (if gt change zero then change else zero).
Proof.
  destruct change as [c | | |]; try discriminate. intros _.
  unfold gt, zero, lt.
  destruct (Qcompare_spec 0 c); simpl; lra.
Qed.

Lemma loss_nonneg (change : num) :
  is_fin change = true -> nonneg (if lt change zero then abs change else zero).
Proof.
  destruct change as [c | | |]; try discriminate. intros _.
  unfold zero, lt.
  destruct (Qcompare_spec c 0); simpl; try lra. apply Qabs_nonneg.
Qed.

Lemma sub_fin (x y : num) : is_fin x = true -> is_fin y = true -> is_fin (sub x y) = true.
Proof. destruct x, y; simpl; congruence. Qed.

Lemma rsi_loop_nonneg (rest : list num) :
  forall prev gains losses,
    is_fin prev = true -> well_formed rest = true ->
    Forall nonneg gains -> Forall nonneg losses ->
    Forall nonneg (fst (rsi_loop prev rest gains losses))
    /\ Forall nonneg (snd (rsi_loop prev rest gains losses)).
Proof.
  induction rest as [| p rest IH]; intros prev gains losses Hprev Hwf Hg Hl; simpl.
  - split; assumption.
  - simpl in Hwf. apply andb_prop in Hwf as [Hp Hrest].
    apply IH; try assumption.
    + apply Forall_app. split; [exact Hg |].
      constructor; [| constructor]. apply gain_nonneg, sub_fin; assumption.
    + apply Forall_app. split; [exact Hl |].
      constructor; [| constructor]. apply loss_nonneg, sub_fin; assumption.
Qed.

Lemma rsi_gains_losses_nonneg (prices : list num) :
  well_formed prices = true ->
  Forall nonneg (fst (rsi_gains_losses prices))
  /\ Forall nonneg (snd (rsi_gains_losses prices)).
Proof.
  destruct prices as [| p0 rest]; simpl; intros H.
  - split; constructor.
  - apply andb_prop in H as [H0 Hrest].
    apply rsi_loop_nonneg; auto.
Qed.

Lemma rsi_avgGain_nonneg (prices : list num) (period : nat) :
  well_formed prices = true -> (0 < period)%nat -> nonneg (rsi_avgGain prices period).
Proof.
  intros Hwf Hp. unfold rsi_avgGain.
  apply nonneg_div_count; [exact Hp |].
  apply nonneg_sum, Forall_slice_last, rsi_gains_losses_nonneg, Hwf.
Qed.

Lemma rsi_avgLoss_nonneg (prices : list num) (period : nat) :
  well_formed prices = true -> (0 < period)%nat -> nonneg (rsi_avgLoss prices period).
Proof.
  intros Hwf Hp. unfold rsi_avgLoss.
  apply nonneg_div_count; [exact Hp |].
  apply nonneg_sum, Forall_slice_last, rsi_gains_losses_nonneg, Hwf.
Qed.

(** The closing formula [100 - 100 / (1 + avgGain / avgLoss)] on a
    non-negative gain and a positive loss. *)
Lemma rsi_formula_range (g l : Q) :
  0 <= g -> 0 < l ->
  exists q, sub (Fin 100) (div (Fin 100) (add (Fin 1) (div (Fin g) (Fin l)))) = Fin q
            /\ 0 <= q <= 100.
Proof.
  intros Hg Hl.
  rewrite (div_Fin_pos g l Hl).
  assert (Hr : 0 <= g / l) by (apply Qle_shift_div_l; [exact Hl | lra]).
  cbn [add].
  assert (Hd : 0 < 1 + g / l) by lra.
  rewrite (div_Fin_pos 100 (1 + g / l) Hd).
  eexists. split; [reflexivity |].
  assert (H1 : 0 <= 100 / (1 + g / l)) by (apply Qle_shift_div_l; [exact Hd | lra]).
  assert (H2 : 100 / (1 + g / l) <= 100) by (apply Qle_shift_div_r; [exact Hd | lra]).
  lra.
Qed.

Lemma calculateRSI_short (prices : list num) (period : nat) :
  (length prices < period + 1)%nat -> calculateRSI prices period = Fin 50.
Proof.
  intros H. unfold calculateRSI, len.
  destruct (Z.ltb_spec (Z.of_nat (length prices)) (Z.of_nat period + 1)); [reflexivity | lia].
Qed.

Lemma calculateRSI_long (prices : list num) (period : nat) :
  (period + 1 <= length prices)%nat ->
  calculateRSI prices period
  = if strict_eq (rsi_avgLoss prices period) zero then Fin 100
    else sub (Fin 100)
           (div (Fin 100)
              (add (Fin 1) (div (rsi_avgGain prices period) (rsi_avgLoss prices period)))).
Proof.
  intros H. unfold calculateRSI, len.
  destruct (Z.ltb_spec (Z.of_nat (length prices)) (Z.of_nat period + 1)); [lia | reflexivity].
Qed.

(** C6, as the code has it.  In exact arithmetic, on a series of finite
    prices with at least [period + 1] of them and a period of at least one
    day, the RSI is a finite number of [[0, 100]]; it is exactly [100] when
    the trailing average loss is [0], and exactly [50] with fewer than
    [period + 1] prices. *)
Theorem calculateRSI_range :
  (forall prices period,
      well_formed prices = true -> (0 < period)%nat ->
      (period + 1 <= length prices)%nat ->
      exists q, calculateRSI prices period = Fin q /\ 0 <= q <= 100)
  /\ (forall prices period,
         (period + 1 <= length prices)%nat ->
         strict_eq (rsi_avgLoss prices period) zero = true ->
         calculateRSI prices period = Fin 100)
  /\ (forall prices period,
         (length prices < period + 1)%nat ->
         calculateRSI prices period = Fin 50).
Proof.
  split; [| split].
  - intros prices period Hwf Hp Hlen.
    rewrite calculateRSI_long by exact Hlen.
    destruct (nonneg_Fin _ (rsi_avgGain_nonneg prices period Hwf Hp)) as (g & -> & Hg).
    destruct (nonneg_Fin _ (rsi_avgLoss_nonneg prices period Hwf Hp)) as (l & -> & Hl).
    destruct (strict_eq (Fin l) zero) eqn:E.
    + exists 100. split; [reflexivity | lra].
    + simpl in E. apply Qeq_bool_neq in E.
      apply rsi_formula_range; [exact Hg |].
      destruct (Qlt_le_dec 0 l) as [Hlt | Hle]; [exact Hlt |].
      exfalso. apply E. lra.
  - intros prices period Hlen E.
    rewrite calculateRSI_long by exact Hlen. rewrite E. reflexivity.
  - intros prices period Hlen. apply calculateRSI_short, Hlen.
Qed.

(** With a period of [0] the window is the whole series ([slice(-0)]) and
    both averages are divisions by zero: on two finite prices the average
    gain is [1 / 0], the average loss [0 / 0], and the RSI is [NaN], not a
    number of [[0, 100]]. *)
Lemma calculateRSI_period_zero :
  well_formed [Fin 1; Fin 2] = true
  /\ (0 + 1 <= length [Fin 1; Fin 2])%nat
  /\ rsi_avgGain [Fin 1; Fin 2] 0 = PInf
  /\ rsi_avgLoss [Fin 1; Fin 2] 0 = NaN
  /\ calculateRSI [Fin 1; Fin 2] 0 = NaN
  /\ ~ (exists q, calculateRSI [Fin 1; Fin 2] 0 = Fin q /\ 0 <= q <= 100).
Proof.
  assert (E : calculateRSI [Fin 1; Fin 2] 0 = NaN) by reflexivity.
  split; [reflexivity |]. split; [simpl; lia |].
  split; [reflexivity |]. split; [reflexivity |]. split; [exact E |].
  intros (q & Hq & _). rewrite E in Hq. discriminate Hq.
Qed.

(** ** [Math.min] and [Math.max] on finite numbers *)

Lemma min2_Fin (a b : Q) :
  exists m, min2 (Fin a) (Fin b) = Fin m /\ (m = a \/ m = b) /\ m <= a /\ m <= b.
Proof.
  simpl. destruct (Qcompare_spec b a).
  - exists a. repeat split; auto; lra.
  - exists b. repeat split; auto; lra.
  - exists a. repeat split; auto; lra.
Qed.

Lemma max2_Fin (a b : Q) :
  exists m, max2 (Fin a) (Fin b) = Fin m /\ (m = a \/ m = b) /\ a <= m /\ b <= m.
Proof.
  simpl. destruct (Qcompare_spec a b).
  - exists a. repeat split; auto; lra.
  - exists b. repeat split; auto; lra.
  - exists a. repeat split; auto; lra.
Qed.

Lemma fold_min2_Fin (qs : list Q) :
  forall a, exists m,
    fold_left min2 (map Fin qs) (Fin a) = Fin m
    /\ In m (a :: qs) /\ (forall q, In q (a :: qs) -> m <= q).
Proof.
  induction qs as [| b qs IH]; intros a; simpl.
  - exists a. split; [reflexivity |]. split; [auto |].
    intros q [<- | []]. lra.
  - destruct (min2_Fin a b) as (m0 & E & Hm0 & Ha & Hb).
    change (match (b ?= a) with Lt => true | _ => false end) with (lt (Fin b) (Fin a)).
    change (if lt (Fin b) (Fin a) then Fin b else Fin a) with (min2 (Fin a) (Fin b)).
    rewrite E. destruct (IH m0) as (m & Em & Hin & Hle).
    exists m. split; [exact Em |]. split.
    + destruct Hin as [<- | Hin]; [| auto]. destruct Hm0 as [-> | ->]; auto.
    + intros q [<- | [<- | Hq]].
      * specialize (Hle m0 (or_introl eq_refl)). lra.
      * specialize (Hle m0 (or_introl eq_refl)). lra.
      * apply Hle. right. exact Hq.
Qed.

Lemma fold_max2_Fin (qs : list Q) :
  forall a, exists m,
    fold_left max2 (map Fin qs) (Fin a) = Fin m
    /\ In m (a :: qs) /\ (forall q, In q (a :: qs) -> q <= m).
Proof.
  induction qs as [| b qs IH]; intros a; simpl.
  - exists a. split; [reflexivity |]. split; [auto |].
    intros q [<- | []]. lra.
  - destruct (max2_Fin a b) as (m0 & E & Hm0 & Ha & Hb).
    change (match (a ?= b) with Lt => true | _ => false end) with (lt (Fin a) (Fin b)).
    change (if lt (Fin a) (Fin b) then Fin b else Fin a) with (max2 (Fin a) (Fin b)).
    rewrite E. destruct (IH m0) as (m & Em & Hin & Hle).
    exists m. split; [exact Em |]. split.
    + destruct Hin as [<- | Hin]; [| auto]. destruct Hm0 as [-> | ->]; auto.
    + intros q [<- | [<- | Hq]].
      * specialize (Hle m0 (or_introl eq_refl)). lra.
      * specialize (Hle m0 (or_introl eq_refl)). lra.
      * apply Hle. right. exact Hq.
Qed.

(** On a non-empty list of finite numbers [Math.min] is a least element. *)
Lemma math_min_Fin (q0 : Q) (qs : list Q) :
  exists m, math_min (map Fin (q0 :: qs)) = Fin m
            /\ In m (q0 :: qs) /\ (forall q, In q (q0 :: qs) -> m <= q).
Proof. unfold math_min. simpl. apply fold_min2_Fin. Qed.

Lemma math_max_Fin (q0 : Q) (qs : list Q) :
  exists m, math_max (map Fin (q0 :: qs)) = Fin m
            /\ In m (q0 :: qs) /\ (forall q, In q (q0 :: qs) -> q <= m).
Proof. unfold math_max. simpl. apply fold_max2_Fin. Qed.

(** ** [calculateSupportLevel] and [calculateResistanceLevel] *)

Lemma levels_short (prices : list num) (p : num) :
  (length prices < 20)%nat -> last prices = Some p ->
  calculateSupportLevel prices = VNum p /\ calculateResistanceLevel prices = VNum p.
Proof.
  intros Hlen Hlast. unfold calculateSupportLevel, calculateResistanceLevel.
  unfold len at 1 3.
  destruct (Z.ltb_spec (Z.of_nat (length prices)) 20); [| lia].
  rewrite (get_last _ _ Hlast). split; reflexivity.
Qed.

Lemma levels_long (prices : list num) :
  (20 <= length prices)%nat ->
  calculateSupportLevel prices = VNum (math_min (slice_last 20 prices))
  /\ calculateResistanceLevel prices = VNum (math_max (slice_last 20 prices)).
Proof.
  intros Hlen. unfold calculateSupportLevel, calculateResistanceLevel, len.
  destruct (Z.ltb_spec (Z.of_nat (length prices)) 20); [lia |].
  split; reflexivity.
Qed.

Lemma levels_empty :
  calculateSupportLevel [] = VUndef /\ calculateResistanceLevel [] = VUndef.
Proof. split; reflexivity. Qed.

Lemma last_well_formed (prices : list num) :
  well_formed prices = true -> prices <> [] -> exists q, last prices = Some (Fin q).
Proof.
  intros Hwf Hne. apply well_formed_Forall in Hwf.
  destruct (last prices) as [p |] eqn:E.
  - assert (Hin : p ∈ prices).
    { rewrite last_lookup in E. eapply list_elem_of_lookup_2, E. }
    rewrite Forall_forall in Hwf. destruct (Hwf p Hin) as [q ->]. eauto.
  - apply last_None in E. contradiction.
Qed.

Lemma In_map_Fin (q : Q) (qs : list Q) : In (Fin q) (map Fin qs) <-> In q qs.
Proof.
  rewrite in_map_iff. split.
  - intros (x & E & Hx). injection E as ->. exact Hx.
  - intros H. exists q. auto.
Qed.

(** C10.  On a non-empty series of finite prices the support level is at
    most the resistance level: with fewer than 20 prices both are the latest
    close, otherwise they are the least and the greatest element of the same
    window, the last 20 prices. *)
Theorem support_le_resistance (prices : list num) :
  well_formed prices = true -> prices <> [] ->
  exists lo hi,
    calculateSupportLevel prices = VNum (Fin lo)
    /\ calculateResistanceLevel prices = VNum (Fin hi)
    /\ lo <= hi
    /\ ((length prices < 20)%nat -> lo = hi /\ last prices = Some (Fin lo))
    /\ ((20 <= length prices)%nat ->
        let window := slice_last 20 prices in
        length window = 20%nat
        /\ In (Fin lo) window /\ In (Fin hi) window
        /\ forall q, In (Fin q) window -> lo <= q <= hi).
Proof.
  intros Hwf Hne.
  destruct (Nat.lt_ge_cases (length prices) 20) as [Hshort | Hlong].
  - destruct (last_well_formed prices Hwf Hne) as [q Hq].
    destruct (levels_short prices (Fin q) Hshort Hq) as [Hs Hr].
    exists q, q.
    split; [exact Hs |]. split; [exact Hr |]. split; [lra |].
    split; [intros _; split; [reflexivity | exact Hq] | intros; lia].
  - destruct (levels_long prices Hlong) as [Hs Hr].
    assert (Hwin : length (slice_last 20 prices) = 20%nat)
      by (apply slice_last_length; lia).
    destruct (well_formed_map prices Hwf) as [qs ->].
    rewrite slice_last_map in Hs, Hr, Hwin |- *.
    destruct (slice_last 20 qs) as [| q0 rest] eqn:E; [discriminate |].
    destruct (math_min_Fin q0 rest) as (lo & Elo & Hlo_in & Hlo).
    destruct (math_max_Fin q0 rest) as (hi & Ehi & Hhi_in & Hhi).
    exists lo, hi. rewrite Hs, Hr, Elo, Ehi.
    split; [reflexivity |]. split; [reflexivity |].
    split; [apply Hlo, Hhi_in |].
    split; [intros; lia |].
    intros _ window. subst window.
    split; [exact Hwin |].
    split; [apply In_map_Fin, Hlo_in |].
    split; [apply In_map_Fin, Hhi_in |].
    intros q Hq. apply In_map_Fin in Hq. split; [apply Hlo | apply Hhi]; exact Hq.
Qed.

(** C8, as the code has it.  A series shorter than the period gives the
    sentinel of the indicator: [0] for the SMA, [50] for the RSI, and, for a
    non-empty series of fewer than 20 prices, the latest close for both
    levels, a finite number (never [NaN]) when the prices are.  On the empty
    series the two levels are [undefined]: there is no latest close to
    return. *)
Theorem short_series_sentinels (prices : list num) (period : nat) :
  ((length prices < period)%nat -> calculateSMA prices period = Fin 0)
  /\ ((length prices < period + 1)%nat -> calculateRSI prices period = Fin 50)
  /\ ((length prices < 20)%nat -> prices <> [] ->
      exists p, last prices = Some p
                /\ calculateSupportLevel prices = VNum p
                /\ calculateResistanceLevel prices = VNum p
                /\ (well_formed prices = true -> is_fin p = true /\ is_nan p = false))
  /\ (prices = [] ->
      calculateSupportLevel prices = VUndef /\ calculateResistanceLevel prices = VUndef).
Proof.
  split; [| split; [| split]].
  - intros H. unfold calculateSMA, len.
    destruct (Z.ltb_spec (Z.of_nat (length prices)) (Z.of_nat period)); [reflexivity | lia].
  - apply calculateRSI_short.
  - intros Hlen Hne.
    destruct (last prices) as [p |] eqn:Hp; [| apply last_None in Hp; contradiction].
    destruct (levels_short prices p Hlen Hp) as [Hs Hr].
    exists p. split; [reflexivity |]. split; [exact Hs |]. split; [exact Hr |].
    intros Hwf. destruct (last_well_formed prices Hwf Hne) as [q Hq].
    rewrite Hp in Hq. injection Hq as ->. split; reflexivity.
  - intros ->. apply levels_empty.
Qed.

(** On the empty series neither level is a number at all, so neither is
    "the single latest close". *)
Lemma levels_empty_not_a_close :
  ~ (exists p, calculateSupportLevel [] = VNum p)
  /\ ~ (exists p, calculateResistanceLevel [] = VNum p).
Proof. split; intros [p H]; discriminate H. Qed.

(** ** QuoteCache *)

Lemma getCached_fresh (key : string) (w : World) (e : CacheEntry) :
  cache w !! key = Some e -> (clock w - timestamp e < cacheTimeout)%Z ->
  getCached key w = Some (data e).
Proof.
  intros He Hfresh. unfold getCached. rewrite He.
  destruct (Z.ltb_spec (clock w - timestamp e) cacheTimeout); [reflexivity | lia].
Qed.

Lemma getCached_stale (key : string) (w : World) (e : CacheEntry) :
  cache w !! key = Some e -> (cacheTimeout <= clock w - timestamp e)%Z ->
  getCached key w = None.
Proof.
  intros He Hstale. unfold getCached. rewrite He.
  destruct (Z.ltb_spec (clock w - timestamp e) cacheTimeout); [lia | reflexivity].
Qed.

Lemma getCached_absent (key : string) (w : World) :
  cache w !! key = None -> getCached key w = None.
Proof. intros H. unfold getCached. rewrite H. reflexivity. Qed.

(** [getCached] reads the clock and the cache only. *)
Lemma getCached_ext (key : string) (w w' : World) :
  clock w' = clock w -> cache w' = cache w -> getCached key w' = getCached key w.
Proof. intros Hc Hm. unfold getCached. rewrite Hc, Hm. reflexivity. Qed.

Lemma getCached_after_set (key : string) (d : Quote.t) (w : World) (dt : Z) :
  getCached key (elapse dt (setCached key d w))
  = if (dt <? cacheTimeout)%Z then Some d else None.
Proof.
  unfold getCached, elapse, setCached, set_cache. simpl.
  rewrite lookup_insert_eq. simpl.
  replace (clock w + dt - clock w)%Z with dt by lia. reflexivity.
Qed.

Lemma expired_getCached (key : string) (w : World) :
  expired key w -> getCached key w = None.
Proof.
  intros [H | (e & He & Hs)]; [apply getCached_absent, H | eapply getCached_stale; eauto].
Qed.

Lemma getStockQuote_hit (symbol : string) (w : World) (e : CacheEntry) :
  cache w !! quote_key symbol = Some e -> (clock w - timestamp e < cacheTimeout)%Z ->
  getStockQuote symbol w = (Ok (data e), w).
Proof.
  intros He Hfresh. unfold getStockQuote, getStockQuote_begin.
  rewrite (getCached_fresh _ _ _ He Hfresh). reflexivity.
Qed.

Lemma getStockQuote_miss (symbol : string) (w : World) :
  getCached (quote_key symbol) w = None ->
  getStockQuote symbol w
  = let reply := market w symbol in
    let w1 := elapse (delay reply) (log_call symbol w) in
    match outcome reply with
    | Some quote =>
        (Ok (make_result quote (clock w1)),
         setCached (quote_key symbol) (make_result quote (clock w1)) w1)
    | None => (Err ("Failed to fetch data for " +:+ symbol), w1)
    end.
Proof.
  intros H. unfold getStockQuote, getStockQuote_begin. rewrite H. reflexivity.
Qed.

(** C7.  [getStockQuote] through the cache.  A stored entry younger than
    five minutes is returned and the provider is not called; otherwise the
    provider is called once and, when it answers, the result is stored with
    the clock reading of that moment and returned.  Hence a second call less
    than five minutes after the store makes no further call to the provider,
    and a call five minutes or more after it makes one more. *)
Theorem getStockQuote_cached (symbol : string) (w : World) :
  (forall e, cache w !! quote_key symbol = Some e ->
             (clock w - timestamp e < cacheTimeout)%Z ->
             getStockQuote symbol w = (Ok (data e), w))
  /\ (expired (quote_key symbol) w ->
      let w1 := snd (getStockQuote symbol w) in
      calls w1 = calls w ++ [symbol]
      /\ forall quote, outcome (market w symbol) = Some quote ->
           let result := make_result quote (clock w1) in
           fst (getStockQuote symbol w) = Ok result
           /\ cache w1 !! quote_key symbol = Some (mkEntry result (clock w1))
           /\ clock w1 = (clock w + delay (market w symbol))%Z
           /\ (forall dt, (dt < cacheTimeout)%Z ->
                 let second := getStockQuote symbol (elapse dt w1) in
                 fst second = Ok result /\ calls (snd second) = calls w ++ [symbol])
           /\ (forall dt, (cacheTimeout <= dt)%Z ->
                 calls (snd (getStockQuote symbol (elapse dt w1)))
                 = calls w ++ [symbol; symbol])).
Proof.
  split; [intros e; apply getStockQuote_hit |].
  intros Hexp. apply expired_getCached in Hexp.
  rewrite (getStockQuote_miss symbol w Hexp). cbv zeta.
  split.
  - destruct (outcome (market w symbol)); reflexivity.
  - intros quote Hq. rewrite Hq. cbn [fst snd].
    set (w0 := elapse (delay (market w symbol)) (log_call symbol w)).
    change (clock (setCached (quote_key symbol) (make_result quote (clock w0)) w0))
      with (clock w0).
    set (result := make_result quote (clock w0)).
    split; [reflexivity |].
    split; [unfold setCached, set_cache; simpl; apply lookup_insert_eq |].
    split; [reflexivity |].
    split.
    + intros dt Hdt.
      assert (Hget : getCached (quote_key symbol) (elapse dt (setCached (quote_key symbol) result w0))
                     = Some result).
      { rewrite getCached_after_set.
        destruct (Z.ltb_spec dt cacheTimeout); [reflexivity | lia]. }
      unfold getStockQuote, getStockQuote_begin. rewrite Hget.
      split; reflexivity.
    + intros dt Hdt.
      assert (Hget : getCached (quote_key symbol) (elapse dt (setCached (quote_key symbol) result w0))
                     = None).
      { rewrite getCached_after_set.
        destruct (Z.ltb_spec dt cacheTimeout); [lia | reflexivity]. }
      rewrite (getStockQuote_miss _ _ Hget). cbv zeta.
      destruct (outcome _); simpl; rewrite <- app_assoc; reflexivity.
Qed.

(** ** [getMultipleQuotes] *)

Lemma begin_all_spec (symbols : list string) (w0 : World) :
  forall w, clock w = clock w0 -> cache w = cache w0 -> market w = market w0 ->
    exists w1, begin_all symbols w = (map (pending_of w0) symbols, w1)
               /\ clock w1 = clock w0 /\ cache w1 = cache w0 /\ market w1 = market w0.
Proof.
  induction symbols as [| s rest IH]; intros w Hc Hm Hk; simpl.
  - exists w. auto.
  - unfold getStockQuote_begin, pending_of.
    rewrite (getCached_ext (quote_key s) w0 w Hc Hm).
    destruct (getCached (quote_key s) w0) as [cached |].
    + destruct (IH w Hc Hm Hk) as (w1 & E & H1). rewrite E. eauto.
    + destruct (IH (log_call s w) Hc Hm Hk) as (w1 & E & H1). rewrite E. eauto.
Qed.

Lemma quote_key_inj (s1 s2 : string) : quote_key s1 = quote_key s2 -> s1 = s2.
Proof. unfold quote_key. intros H. injection H as H. exact H. Qed.

Lemma coherent_setCached (s : string) (raw : RawQuote.t) (t : Z) (w : World) :
  outcome (market w s) = Some raw -> coherent w ->
  coherent (setCached (quote_key s) (make_result raw t) w).
Proof.
  intros Hraw Hco s' e. unfold setCached, set_cache. simpl.
  destruct (decide (s = s')) as [<- | Hne].
  - rewrite lookup_insert_eq. intros [= <-]. simpl. eauto.
  - rewrite lookup_insert_ne by (intros E; apply quote_key_inj in E; congruence).
    apply Hco.
Qed.

Lemma resume_all_spec (ps : list Pending) :
  forall w, exists rs w2,
    resume_all ps w = (rs, w2)
    /\ market w2 = market w
    /\ Forall2 (settle (market w)) ps rs
    /\ (coherent w -> coherent w2).
Proof.
  induction ps as [| p rest IH]; intros w; simpl.
  - exists [], w. repeat split; auto.
  - destruct p as [cached | s]; simpl.
    + destruct (IH w) as (rs & w2 & E & Hm & Hf & Hco). rewrite E.
      exists (Ok cached :: rs), w2. repeat split; auto.
      constructor; [reflexivity | exact Hf].
    + destruct (outcome (market w s)) as [raw |] eqn:Hraw.
      * set (w1 := setCached _ _ _).
        destruct (IH w1) as (rs & w2 & E & Hm & Hf & Hco). rewrite E.
        exists (Ok (make_result raw (clock (elapse (delay (market w s)) w))) :: rs), w2.
        repeat split; auto.
        -- constructor; [| exact Hf]. simpl. rewrite Hraw. eauto.
        -- intros H. apply Hco. subst w1. apply coherent_setCached; [exact Hraw | exact H].
      * set (w1 := elapse _ _).
        destruct (IH w1) as (rs & w2 & E & Hm & Hf & Hco). rewrite E.
        exists (Err ("Failed to fetch data for " +:+ s) :: rs), w2.
        repeat split; auto.
        constructor; [| exact Hf]. simpl. rewrite Hraw. reflexivity.
Qed.

Lemma promise_all_spec {A : Type} (rs : list (result A)) :
  match promise_all rs with
  | Ok l => rs = map Ok l
  | Err msg => In (Err msg) rs
  end.
Proof.
  induction rs as [| [a | msg] rest IH]; simpl; auto.
  destruct (promise_all rest) as [l | msg]; simpl; [f_equal; exact IH | auto].
Qed.

Lemma settle_pending_Ok (w : World) (symbols : list string) (quotes : list Quote.t) :
  Forall2 (settle (market w)) (map (pending_of w) symbols) (map Ok quotes) ->
  Forall2 (settles w) symbols quotes.
Proof.
  revert quotes. induction symbols as [| s rest IH]; intros [| q quotes] H;
    simpl in H; inversion H; subst; constructor.
  - unfold settle, pending_of, settles in *.
    destruct (getCached (quote_key s) w) as [cached |].
    + left. congruence.
    + right. split; [reflexivity |].
      destruct (outcome (market w s)) as [raw |]; [| discriminate].
      match goal with Hx : exists _, _ |- _ => destruct Hx as [t [= ->]] end. eauto.
  - apply IH. assumption.
Qed.

Lemma settle_pending_Err (w : World) (symbols : list string)
    (rs : list (result Quote.t)) (msg : string) :
  Forall2 (settle (market w)) (map (pending_of w) symbols) rs ->
  In (Err msg) rs -> exists s, In s symbols /\ rejected w s.
Proof.
  revert rs. induction symbols as [| s rest IH]; intros rs H Hin;
    simpl in H; inversion H; subst; simpl in Hin; [contradiction |].
  destruct Hin as [-> | Hin].
  - exists s. split; [left; reflexivity |].
    unfold settle, pending_of, rejected in *.
    destruct (getCached (quote_key s) w) as [cached |]; [discriminate |].
    destruct (outcome (market w s)) as [raw |]; [| auto].
    match goal with Hx : exists _, _ |- _ => destruct Hx as [t Hx]; discriminate Hx end.
  - destruct (IH _ ltac:(eassumption) Hin) as (s' & Hs' & Hrej).
    exists s'. split; [right; exact Hs' | exact Hrej].
Qed.

(** The batch succeeds with one quote per symbol, each the one its symbol
    resolves to, or fails because some fetch was rejected. *)
Lemma getMultipleQuotes_spec (symbols : list string) (w : World) :
  exists w',
    market w' = market w /\ (coherent w -> coherent w')
    /\ ((exists quotes, getMultipleQuotes symbols w = (Ok quotes, w')
                        /\ Forall2 (settles w) symbols quotes)
        \/ (getMultipleQuotes symbols w = (Err "Failed to fetch multiple stock quotes", w')
            /\ exists s, In s symbols /\ rejected w s)).
Proof.
  unfold getMultipleQuotes.
  destruct (begin_all_spec symbols w w eq_refl eq_refl eq_refl) as (w1 & E1 & Hc & Hk & Hm).
  rewrite E1.
  destruct (resume_all_spec (map (pending_of w) symbols) w1) as (rs & w2 & E2 & Hm2 & Hf & Hco).
  rewrite E2. rewrite Hm in Hf.
  exists w2. split; [congruence |]. split.
  { intros H. apply Hco. intros s e. rewrite Hk, Hm. apply H. }
  pose proof (promise_all_spec rs) as Hp.
  destruct (promise_all rs) as [quotes | msg].
  - left. exists quotes. split; [reflexivity |].
    subst rs. apply settle_pending_Ok, Hf.
  - right. split; [reflexivity |]. eapply settle_pending_Err; eauto.
Qed.

Lemma settles_not_rejected (w : World) (s : string) (q : Quote.t) :
  settles w s q -> ~ rejected w s.
Proof.
  intros [H | (H & raw & t & Hraw & _)] [Hn Ho]; congruence.
Qed.

Lemma Forall2_In_l {A B : Type} (R : A -> B -> Prop) (xs : list A) (ys : list B) (x : A) :
  Forall2 R xs ys -> In x xs -> exists y, In y ys /\ R x y.
Proof.
  induction 1 as [| a b xs ys Hab _ IH]; simpl; [tauto |].
  intros [<- | Hin]; [eauto |].
  destruct (IH Hin) as (y & Hy & Hr). eauto.
Qed.

(** One rejected fetch makes the whole batch fail. *)
Lemma getMultipleQuotes_rejected (symbols : list string) (w : World) (s : string) :
  In s symbols -> rejected w s ->
  fst (getMultipleQuotes symbols w) = Err "Failed to fetch multiple stock quotes".
Proof.
  intros Hin Hrej.
  destruct (getMultipleQuotes_spec symbols w) as (w' & _ & _ & [(quotes & E & Hf) | (E & _)]).
  - destruct (Forall2_In_l _ _ _ _ Hf Hin) as (q & _ & Hq).
    exfalso. eapply settles_not_rejected; eauto.
  - rewrite E. reflexivity.
Qed.

(** Two calls for the same symbol started in one batch both miss the cache:
    the lookups are made before either answer is stored. *)
Example getMultipleQuotes_same_symbol_twice :
  calls (snd (getMultipleQuotes ["X"; "X"] world0)) = ["X"; "X"].
Proof. vm_compute. reflexivity. Qed.

(** ** [calculatePortfolioValue] *)

Lemma valuation_loop_spec (quotes : list Quote.t) (holdings : list Holding.t) :
  forall totalValue totalCost updatedHoldings,
    valuation_loop quotes holdings totalValue totalCost updatedHoldings
    = (fold_left add (map (fun hq => Valued.currentValue (value_pair hq))
                          (included quotes holdings)) totalValue,
       fold_left add (map (fun hq => costBasis (fst hq)) (included quotes holdings)) totalCost,
       updatedHoldings ++ map value_pair (included quotes holdings)).
Proof.
  induction holdings as [| h rest IH]; intros tv tc upd; simpl.
  - rewrite app_nil_r. reflexivity.
  - destruct (find_quote quotes h) as [q |]; simpl.
    + rewrite IH. rewrite <- app_assoc. reflexivity.
    + apply IH.
Qed.

Lemma included_holdings (quotes : list Quote.t) (holdings : list Holding.t) :
  map fst (included quotes holdings)
  = List.filter (fun h => match find_quote quotes h with Some _ => true | None => false end)
      holdings.
Proof.
  induction holdings as [| h rest IH]; simpl; [reflexivity |].
  destruct (find_quote quotes h); simpl; rewrite IH; reflexivity.
Qed.

Lemma included_quote (quotes : list Quote.t) (holdings : list Holding.t)
    (h : Holding.t) (q : Quote.t) :
  In (h, q) (included quotes holdings) ->
  In h holdings /\ find_quote quotes h = Some q
  /\ In q quotes /\ Quote.symbol q = Holding.symbol h.
Proof.
  induction holdings as [| h0 rest IH]; simpl; [tauto |].
  destruct (find_quote quotes h0) as [q0 |] eqn:E; simpl.
  - intros [[= <- <-] | Hin].
    + split; [auto |]. split; [exact E |].
      unfold find_quote in E. apply find_some in E as [Hq Hs].
      split; [exact Hq | apply String.eqb_eq, Hs].
    + destruct (IH Hin) as (H1 & H2). auto.
  - intros Hin. destruct (IH Hin) as (H1 & H2). auto.
Qed.

Lemma calculatePortfolioValue_nonempty (holdings : list Holding.t) (w : World) :
  holdings <> [] ->
  calculatePortfolioValue holdings w
  = match getMultipleQuotes (map Holding.symbol holdings) w with
    | (Ok quotes, w1) => (Ok (valuation_of quotes holdings (clock w1)), w1)
    | (Err _, w1) => (Err "Failed to calculate portfolio value", w1)
    end.
Proof.
  intros Hne. destruct holdings as [| h rest]; [congruence |].
  unfold calculatePortfolioValue.
  destruct (getMultipleQuotes _ w) as [[quotes | msg] w1]; [| reflexivity].
  rewrite valuation_loop_spec. reflexivity.
Qed.

Lemma calculatePortfolioValue_rejected (holdings : list Holding.t) (w : World) (h : Holding.t) :
  In h holdings -> rejected w (Holding.symbol h) ->
  fst (calculatePortfolioValue holdings w) = Err "Failed to calculate portfolio value".
Proof.
  intros Hin Hrej.
  rewrite calculatePortfolioValue_nonempty by (intros ->; contradiction).
  pose proof (getMultipleQuotes_rejected (map Holding.symbol holdings) w
                (Holding.symbol h) (in_map _ _ _ Hin) Hrej) as E.
  destruct (getMultipleQuotes _ w) as [[quotes | msg] w1]; [discriminate | reflexivity].
Qed.

Lemma calculatePortfolioValue_resolved (holdings : list Holding.t) (w : World) :
  holdings <> [] ->
  (forall h, In h holdings -> ~ rejected w (Holding.symbol h)) ->
  exists quotes w1,
    getMultipleQuotes (map Holding.symbol holdings) w = (Ok quotes, w1)
    /\ Forall2 (settles w) (map Holding.symbol holdings) quotes
    /\ calculatePortfolioValue holdings w
       = (Ok (valuation_of quotes holdings (clock w1)), w1).
Proof.
  intros Hne Hall.
  rewrite calculatePortfolioValue_nonempty by exact Hne.
  destruct (getMultipleQuotes_spec (map Holding.symbol holdings) w)
    as (w1 & _ & _ & [(quotes & E & Hf) | (_ & s & Hs & Hrej)]).
  - exists quotes, w1. rewrite E. auto.
  - apply in_map_iff in Hs as (h & <- & Hh). exfalso. exact (Hall h Hh Hrej).
Qed.

(** C2.  On the empty list the early return makes no call to the provider and
    leaves the world as it is, but the object it returns has no [totalCost]
    property, where the specification lists [totalCost: 0] (and where the other
    return of the same method does set [totalCost]). *)
Theorem calculatePortfolioValue_empty (w : World) :
  calculatePortfolioValue [] w = (Ok empty_valuation, w)
  /\ calls (snd (calculatePortfolioValue [] w)) = calls w
  /\ Valuation.totalValue empty_valuation = Fin 0
  /\ Valuation.totalGainLoss empty_valuation = Fin 0
  /\ Valuation.totalGainLossPercent empty_valuation = Fin 0
  /\ Valuation.holdings empty_valuation = []
  /\ Valuation.totalCost empty_valuation = None
  /\ Valuation.totalCost empty_valuation <> Some (Fin 0).
Proof. repeat split; discriminate. Qed.

(** The per-holding figures, as the loop computes them. *)
Lemma value_holding_fields (holding : Holding.t) (quote : Quote.t) :
  let v := value_holding holding quote in
  Valued.currentValue v = mul (Holding.shares holding) (Quote.currentPrice quote)
  /\ costBasis holding = mul (Holding.shares holding) (Holding.avgPrice holding)
  /\ Holding.gainLoss (Valued.spread v) = sub (Valued.currentValue v) (costBasis holding)
  /\ Valued.gainLossPercent v
     = mul (div (Holding.gainLoss (Valued.spread v)) (costBasis holding)) (Fin 100).
Proof. repeat split. Qed.

Example value_holding_sample :
  let v := value_holding holdingX (make_result rawX 0) in
  same (Valued.currentValue v) (Fin 600)
  /\ same (costBasis holdingX) (Fin 500)
  /\ same (Holding.gainLoss (Valued.spread v)) (Fin 100)
  /\ same (Valued.gainLossPercent v) (Fin 20).
Proof. vm_compute. repeat split. Qed.

(** Without a guard, a zero cost basis never gives a finite percentage. *)
Lemma gainLossPercent_zero_costBasis (holding : Holding.t) (quote : Quote.t) :
  strict_eq (costBasis holding) zero = true ->
  is_fin (Valued.gainLossPercent (value_holding holding quote)) = false.
Proof.
  unfold value_holding. cbn [Valued.gainLossPercent].
  fold (costBasis holding).
  destruct (costBasis holding) as [c | | |]; try discriminate.
  cbn [strict_eq zero]. intros Hc. apply Qeq_bool_iff in Hc.
  assert (Hcmp : (c ?= 0) = Eq) by (apply Qeq_alt; exact Hc).
  assert (Hneg : (- c ?= 0) = Eq) by (apply Qeq_alt; lra).
  destruct (mul (Holding.shares holding) (Quote.currentPrice quote)) as [a | | |];
    cbn [sub neg add div]; rewrite ?Hcmp; try reflexivity.
  destruct (a + - c ?= 0); reflexivity.
Qed.

(** C4.  A position of zero shares has a zero cost basis, and its
    [gainLossPercent] is [0 / 0], that is [NaN], not the [0] of the guard the
    specification describes (the sibling [totalGainLossPercent] has the
    guard). *)
Theorem gainLossPercent_unguarded :
  strict_eq (costBasis holdingZero) zero = true
  /\ exists v w',
       calculatePortfolioValue [holdingZero] world0 = (Ok v, w')
       /\ map Valued.gainLossPercent (Valuation.holdings v) = [NaN]
       /\ Valuation.totalGainLossPercent v = Fin 0.
Proof.
  split; [reflexivity |].
  eexists _, _. split; [vm_compute; reflexivity |].
  split; reflexivity.
Qed.

(** C1, as the code has it.  A rejected quote fetch is not excluded: it
    fails the whole valuation.  When no fetch is rejected the valuation
    succeeds; a holding is then left out only if no returned quote carries its
    symbol, and every other holding is listed once, in order, with its
    per-holding figures, the totals being the sums over the listed ones. *)
Theorem valuation_all_or_nothing (holdings : list Holding.t) (w : World) :
  (forall h, In h holdings -> rejected w (Holding.symbol h) ->
     fst (calculatePortfolioValue holdings w) = Err "Failed to calculate portfolio value")
  /\ (holdings <> [] ->
      (forall h, In h holdings -> ~ rejected w (Holding.symbol h)) ->
      exists quotes v,
        fst (calculatePortfolioValue holdings w) = Ok v
        /\ Forall2 (settles w) (map Holding.symbol holdings) quotes
        /\ Valuation.holdings v = map value_pair (included quotes holdings)
        /\ map fst (included quotes holdings)
           = List.filter (fun h => match find_quote quotes h with
                                   | Some _ => true
                                   | None => false
                                   end) holdings
        /\ Valuation.totalValue v = sum (map Valued.currentValue (Valuation.holdings v))
        /\ Valuation.totalCost v
           = Some (sum (map (fun hq => costBasis (fst hq)) (included quotes holdings)))).
Proof.
  split.
  - intros h Hin Hrej. eapply calculatePortfolioValue_rejected; eauto.
  - intros Hne Hall.
    destruct (calculatePortfolioValue_resolved holdings w Hne Hall)
      as (quotes & w1 & _ & Hf & E).
    exists quotes, (valuation_of quotes holdings (clock w1)).
    rewrite E. cbn [fst valuation_of Valuation.holdings Valuation.totalValue Valuation.totalCost].
    split; [reflexivity |]. split; [exact Hf |]. split; [reflexivity |].
    split; [apply included_holdings |].
    split; [rewrite map_map; reflexivity | reflexivity].
Qed.

(** The provider rejects [Y]: the valuation of [X] and [Y] returns no result
    at all, although [X] resolves. *)
Lemma valuation_fails_on_one_rejection :
  rejected world0 (Holding.symbol holdingY)
  /\ ~ rejected world0 (Holding.symbol holdingX)
  /\ fst (calculatePortfolioValue [holdingX; holdingY] world0)
     = Err "Failed to calculate portfolio value"
  /\ ~ (exists v, fst (calculatePortfolioValue [holdingX; holdingY] world0) = Ok v).
Proof.
  assert (E : fst (calculatePortfolioValue [holdingX; holdingY] world0)
              = Err "Failed to calculate portfolio value") by (vm_compute; reflexivity).
  split; [split; reflexivity |].
  split; [intros [_ H]; discriminate H |].
  split; [exact E |].
  intros [v Hv]. rewrite E in Hv. discriminate Hv.
Qed.

(** ** Revaluation *)

Lemma getCached_entry (key : string) (w : World) (q : Quote.t) :
  getCached key w = Some q -> exists e, cache w !! key = Some e /\ data e = q.
Proof.
  unfold getCached. destruct (cache w !! key) as [e |]; [| discriminate].
  destruct (_ <? _)%Z; [| discriminate]. intros [= <-]. eauto.
Qed.

(** Under coherence a resolved quote is the provider's answer, whatever the
    time it was stamped at. *)
Lemma settles_coherent (w : World) (s : string) (q : Quote.t) :
  coherent w -> settles w s q ->
  exists raw, outcome (market w s) = Some raw /\ timeless q = timeless (make_result raw 0).
Proof.
  intros Hco [H | (_ & raw & t & Hraw & ->)].
  - apply getCached_entry in H as (e & He & <-).
    destruct (Hco s e He) as (raw & t & Hraw & ->). eauto.
  - eauto.
Qed.

Lemma settles_timeless (m : string -> Reply) (symbols : list string) :
  forall qs1 qs2,
    Forall2 (fun s q => exists raw, outcome (m s) = Some raw
                                    /\ timeless q = timeless (make_result raw 0)) symbols qs1 ->
    Forall2 (fun s q => exists raw, outcome (m s) = Some raw
                                    /\ timeless q = timeless (make_result raw 0)) symbols qs2 ->
    map timeless qs1 = map timeless qs2.
Proof.
  induction symbols as [| s rest IH]; intros qs1 qs2 H1 H2;
    inversion H1; inversion H2; subst; simpl; [reflexivity |].
  f_equal; [| apply IH; assumption].
  repeat match goal with H : exists _, _ |- _ => destruct H as (? & ? & ?) end.
  congruence.
Qed.

Lemma find_quote_timeless (quotes : list Quote.t) (holding : Holding.t) :
  find_quote (map timeless quotes) holding = option_map timeless (find_quote quotes holding).
Proof.
  unfold find_quote. induction quotes as [| q rest IH]; simpl; [reflexivity |].
  destruct (String.eqb (Quote.symbol q) (Holding.symbol holding)); [reflexivity | exact IH].
Qed.

Lemma value_holding_timeless (holding : Holding.t) (quote : Quote.t) :
  value_holding holding (timeless quote) = value_holding holding quote.
Proof. reflexivity. Qed.

Lemma included_timeless (quotes : list Quote.t) (holdings : list Holding.t) :
  map value_pair (included (map timeless quotes) holdings)
  = map value_pair (included quotes holdings)
  /\ map (fun hq => costBasis (fst hq)) (included (map timeless quotes) holdings)
     = map (fun hq => costBasis (fst hq)) (included quotes holdings).
Proof.
  induction holdings as [| h rest [IH1 IH2]]; simpl; [auto |].
  rewrite find_quote_timeless.
  destruct (find_quote quotes h) as [q |]; simpl; [| auto].
  rewrite IH1, IH2. auto.
Qed.

(** The figures depend on the quotes only up to their timestamps. *)
Lemma valuation_of_timeless (qs1 qs2 : list Quote.t) (holdings : list Holding.t) (t1 t2 : Z) :
  map timeless qs1 = map timeless qs2 ->
  untimed (valuation_of qs1 holdings t1) = untimed (valuation_of qs2 holdings t2).
Proof.
  intros E.
  destruct (included_timeless qs1 holdings) as [Hv1 Hc1].
  destruct (included_timeless qs2 holdings) as [Hv2 Hc2].
  rewrite E in Hv1, Hc1.
  assert (Hv : map value_pair (included qs1 holdings) = map value_pair (included qs2 holdings))
    by congruence.
  assert (Hc : map (fun hq => costBasis (fst hq)) (included qs1 holdings)
               = map (fun hq => costBasis (fst hq)) (included qs2 holdings))
    by congruence.
  assert (Ht : map (fun hq => Valued.currentValue (value_pair hq)) (included qs1 holdings)
               = map (fun hq => Valued.currentValue (value_pair hq)) (included qs2 holdings)).
  { rewrite <- !(map_map value_pair Valued.currentValue). rewrite Hv. reflexivity. }
  unfold untimed, valuation_of. cbv zeta.
  cbn [Valuation.totalValue Valuation.totalCost Valuation.totalGainLoss
       Valuation.totalGainLossPercent Valuation.holdings].
  rewrite Hv, Hc, Ht. reflexivity.
Qed.

Lemma coherent_elapse (dt : Z) (w : World) : coherent w -> coherent (elapse dt w).
Proof. intros H s e. simpl. apply H. Qed.

Lemma Forall2_settles_coherent (w : World) (symbols : list string) (quotes : list Quote.t) :
  coherent w -> Forall2 (settles w) symbols quotes ->
  Forall2 (fun s q => exists raw, outcome (market w s) = Some raw
                                  /\ timeless q = timeless (make_result raw 0)) symbols quotes.
Proof.
  intros Hco H. induction H; constructor; auto. apply settles_coherent; assumption.
Qed.

(** C9, as the code has it.  Valuing the same holdings again, at any later
    time, with the provider answering as before and the cache holding quotes
    the provider still answers, succeeds again and gives the same record in
    every field but [timestamp], which is the clock reading of each run. *)
Theorem revaluation_same_figures (holdings : list Holding.t) (w w1 : World)
    (v1 : Valuation.t) (dt : Z) :
  coherent w ->
  calculatePortfolioValue holdings w = (Ok v1, w1) ->
  exists v2 w2,
    calculatePortfolioValue holdings (elapse dt w1) = (Ok v2, w2)
    /\ untimed v2 = untimed v1.
Proof.
  intros Hco Hrun.
  destruct holdings as [| h0 rest] eqn:Eh.
  { injection Hrun as <- <-. eexists _, _. split; reflexivity. }
  rewrite <- Eh in *.
  assert (Hne : holdings <> []) by (rewrite Eh; discriminate).
  rewrite calculatePortfolioValue_nonempty in Hrun by exact Hne.
  destruct (getMultipleQuotes_spec (map Holding.symbol holdings) w)
    as (w' & Hm & Hco' & [(qs1 & E1 & Hf1) | (E1 & _)]);
    rewrite E1 in Hrun; [| discriminate].
  injection Hrun as <- <-.
  apply (Forall2_settles_coherent _ _ _ Hco) in Hf1.
  set (w1' := elapse dt w').
  assert (Hco1 : coherent w1') by (apply coherent_elapse, Hco', Hco).
  assert (Hm1 : market w1' = market w) by exact Hm.
  rewrite calculatePortfolioValue_nonempty by exact Hne.
  destruct (getMultipleQuotes_spec (map Holding.symbol holdings) w1')
    as (w2 & _ & _ & [(qs2 & E2 & Hf2) | (_ & s & Hs & Hrej)]).
  - rewrite E2. eexists _, _. split; [reflexivity |].
    apply (Forall2_settles_coherent _ _ _ Hco1) in Hf2. rewrite Hm1 in Hf2.
    apply valuation_of_timeless. eapply settles_timeless; eauto.
  - exfalso. destruct Hrej as [_ Hnone]. rewrite Hm1 in Hnone.
    destruct (Forall2_In_l _ _ _ _ Hf1 Hs) as (q & _ & raw & Hraw & _). congruence.
Qed.

(** The same holdings valued twice, one second apart, with the quotes
    unchanged: the two records differ, in their [timestamp]. *)
Lemma revaluation_differs :
  coherent world0
  /\ exists v1 w1 v2 w2,
       calculatePortfolioValue [holdingX] world0 = (Ok v1, w1)
       /\ calculatePortfolioValue [holdingX] (elapse 1000 w1) = (Ok v2, w2)
       /\ market w1 = market world0
       /\ v1 <> v2.
Proof.
  split; [intros s e H; discriminate H |].
  eexists _, _, _, _.
  split; [vm_compute; reflexivity |].
  split; [vm_compute; reflexivity |].
  split; [reflexivity |].
  intros H. apply (f_equal Valuation.timestamp) in H. discriminate H.
Qed.

(** ** [POST /add] and the weighted-average merge it never reaches *)

Lemma findIndex_find {A : Type} (pred : A -> bool) (xs : list A) :
  match findIndex pred xs with
  | Some i => exists x, xs !! i = Some x /\ find pred xs = Some x
  | None => find pred xs = None
  end.
Proof.
  induction xs as [| x rest IH]; simpl; [reflexivity |].
  destruct (pred x); [exists x; split; reflexivity |].
  destruct (findIndex pred rest) as [i |]; simpl; exact IH.
Qed.

Lemma find_insert_found {A : Type} (pred : A -> bool) (xs : list A) (y : A) :
  forall i, findIndex pred xs = Some i -> pred y = true ->
            find pred (<[i := y]> xs) = Some y.
Proof.
  induction xs as [| x rest IH]; intros i Hi Hy; simpl in Hi; [discriminate |].
  destruct (pred x) eqn:Hx.
  - injection Hi as <-. simpl. rewrite Hy. reflexivity.
  - destruct (findIndex pred rest) as [j |]; [| discriminate].
    injection Hi as <-. simpl. rewrite Hx. apply IH; auto.
Qed.

Lemma find_app_new {A : Type} (pred : A -> bool) (xs : list A) (y : A) :
  find pred xs = None -> pred y = true -> find pred (xs ++ [y]) = Some y.
Proof.
  induction xs as [| x rest IH]; simpl; intros Hn Hy; [rewrite Hy; reflexivity |].
  destruct (pred x); [discriminate | auto].
Qed.

Lemma position_store_entry (portfolio : list Holding.t) (stockEntry : Holding.t)
    (stockQuote : Quote.t) :
  position (Holding.symbol stockEntry) (store_entry portfolio stockEntry stockQuote)
  = Some match position (Holding.symbol stockEntry) portfolio with
         | Some old => merged old (Holding.shares stockEntry) (Holding.avgPrice stockEntry)
         | None => (Holding.shares stockEntry, Holding.avgPrice stockEntry)
         end.
Proof.
  unfold position, store_entry.
  set (pred := fun stock => String.eqb (Holding.symbol stock) (Holding.symbol stockEntry)).
  pose proof (findIndex_find pred portfolio) as H.
  destruct (findIndex pred portfolio) as [i |] eqn:Ei.
  - destruct H as (existing & Hi & Hf). rewrite Hi, Hf.
    rewrite (find_insert_found pred portfolio _ i Ei).
    + reflexivity.
    + apply find_some in Hf as [_ Hp]. exact Hp.
  - rewrite H. rewrite find_app_new; [reflexivity | exact H |].
    unfold pred. apply String.eqb_refl.
Qed.

(** Two adds to a fresh position commute. *)
Lemma merged_fresh_comm (s1 p1 s2 p2 : Q) :
  0 < s1 -> 0 < s2 ->
  same_position (merged (Fin s1, Fin p1) (Fin s2) (Fin p2))
                (merged (Fin s2, Fin p2) (Fin s1) (Fin p1)).
Proof.
  intros H1 H2. unfold merged, same_position. cbn [fst snd add mul].
  rewrite !div_Fin_pos by lra. simpl. split; [ring | field; lra].
Qed.

(** Two adds to an existing position commute. *)
Lemma merged_twice_comm (s0 a0 s1 p1 s2 p2 : Q) :
  0 < s0 -> 0 < s1 -> 0 < s2 ->
  same_position (merged (merged (Fin s0, Fin a0) (Fin s1) (Fin p1)) (Fin s2) (Fin p2))
                (merged (merged (Fin s0, Fin a0) (Fin s2) (Fin p2)) (Fin s1) (Fin p1)).
Proof.
  intros H0 H1 H2. unfold merged, same_position. cbn [fst snd add mul].
  rewrite (div_Fin_pos _ (s0 + s1)) by lra.
  rewrite (div_Fin_pos _ (s0 + s2)) by lra.
  cbn [add mul].
  rewrite !div_Fin_pos by lra. simpl. split; [ring | field; lra].
Qed.

(** What [merge_entry] computes: the sum of the shares and the weighted
    average of the prices. *)
Lemma merge_entry_position (existing stockEntry : Holding.t) (stockQuote : Quote.t) :
  (Holding.shares (merge_entry existing stockEntry stockQuote),
   Holding.avgPrice (merge_entry existing stockEntry stockQuote))
  = merged (Holding.shares existing, Holding.avgPrice existing)
      (Holding.shares stockEntry) (Holding.avgPrice stockEntry).
Proof. reflexivity. Qed.

Lemma post_add_accepted (symbol : string) (req : AddRequest) (w : World) :
  refused req = false -> req_symbol req = StringField symbol ->
  post_add req w = (mkResponse 500 None, snd (getStockQuote (toUpperCase symbol) w)).
Proof.
  intros Hok Hsym. unfold post_add. rewrite Hok, Hsym.
  destruct (getStockQuote (toUpperCase symbol) w) as [[q | msg] w1]; reflexivity.
Qed.

(** C5.  The merge is written in the handler but never performed.  Whatever
    the request and the state of the service, [POST /add] answers 400 (a
    field is absent or falsy) or 500 and sends no portfolio: a request that
    passes the validation and whose quote is fetched still ends in the
    [ReferenceError] of the first read of [portfolios], before any entry is
    stored or merged, where the specification promises the weighted-average
    merge. *)
Theorem post_add_never_merges (req : AddRequest) (w : World) :
  status (fst (post_add req w)) = (if refused req then 400 else 500)%nat
  /\ body (fst (post_add req w)) = None
  /\ status (fst (post_add req w)) <> 201%nat.
Proof.
  unfold post_add. destruct (refused req).
  - repeat split. discriminate.
  - destruct (req_symbol req) as [| n | symbol].
    + repeat split. discriminate.
    + repeat split. discriminate.
    + destruct (getStockQuote (toUpperCase symbol) w) as [[q | msg] w1];
        repeat split; discriminate.
Qed.

(** The same valid request sent twice: the quote is fetched (once, the
    second request is served from the cache) and both answers are 500. *)
Example post_add_twice :
  refused sample_add = false
  /\ fst (getStockQuote "X" world0) = Ok (make_result rawX 1120)
  /\ fst (post_add sample_add world0) = mkResponse 500 None
  /\ fst (post_add sample_add (snd (post_add sample_add world0))) = mkResponse 500 None
  /\ calls (snd (post_add sample_add (snd (post_add sample_add world0)))) = ["X"].
Proof. vm_compute. repeat split. Qed.

(** ** The theorems at the sample data *)

Lemma calculateRSI_range_witness :
  (exists q, calculateRSI sample_prices 3 = Fin q /\ 0 <= q <= 100)
  /\ calculateRSI [Fin 1; Fin 2; Fin 3] 2 = Fin 100
  /\ calculateRSI sample_prices 14 = Fin 50.
Proof.
  destruct calculateRSI_range as (Hrange & Hfull & Hshort).
  split; [| split].
  - apply Hrange; [reflexivity | simpl; lia | simpl; lia].
  - apply Hfull; [simpl; lia | reflexivity].
  - apply Hshort. simpl. lia.
Defined.

Lemma support_le_resistance_witness :
  exists lo hi,
    calculateSupportLevel sample_prices = VNum (Fin lo)
    /\ calculateResistanceLevel sample_prices = VNum (Fin hi)
    /\ lo <= hi.
Proof.
  destruct (support_le_resistance sample_prices) as (lo & hi & Hs & Hr & Hle & _).
  - reflexivity.
  - discriminate.
  - exists lo, hi. auto.
Defined.

Lemma short_series_sentinels_witness :
  calculateSMA [Fin 100; Fin 102] 5 = Fin 0
  /\ calculateRSI [Fin 100; Fin 102] 5 = Fin 50
  /\ exists p, last [Fin 100; Fin 102] = Some p
               /\ calculateSupportLevel [Fin 100; Fin 102] = VNum p
               /\ calculateResistanceLevel [Fin 100; Fin 102] = VNum p
               /\ is_nan p = false.
Proof.
  destruct (short_series_sentinels [Fin 100; Fin 102] 5) as (Hsma & Hrsi & Hlevels & _).
  split; [apply Hsma; simpl; lia |].
  split; [apply Hrsi; simpl; lia |].
  destruct Hlevels as (p & Hlast & Hs & Hr & Hfin); [simpl; lia | discriminate |].
  exists p. repeat split; auto. apply Hfin. reflexivity.
Defined.

Lemma getStockQuote_cached_witness :
  calls (snd (getStockQuote "X" world0)) = ["X"]
  /\ fst (getStockQuote "X" world0) = Ok (make_result rawX 1120)
  /\ calls (snd (getStockQuote "X" (elapse 299999 (snd (getStockQuote "X" world0))))) = ["X"]
  /\ calls (snd (getStockQuote "X" (elapse 300000 (snd (getStockQuote "X" world0)))))
     = ["X"; "X"].
Proof.
  destruct (getStockQuote_cached "X" world0) as [_ Hmiss].
  destruct Hmiss as [Hcalls Hfetch]; [left; reflexivity |].
  destruct (Hfetch rawX eq_refl) as (Hres & _ & _ & Hwithin & Hafter).
  split; [exact Hcalls |].
  split; [exact Hres |].
  split; [apply (Hwithin 299999%Z); reflexivity |].
  apply (Hafter 300000%Z). discriminate.
Defined.

Lemma valuation_all_or_nothing_witness :
  fst (calculatePortfolioValue [holdingX; holdingY] world0)
  = Err "Failed to calculate portfolio value"
  /\ exists quotes v,
       fst (calculatePortfolioValue [holdingX] world0) = Ok v
       /\ Valuation.holdings v = map value_pair (included quotes [holdingX]).
Proof.
  split.
  - destruct (valuation_all_or_nothing [holdingX; holdingY] world0) as [Hfail _].
    apply (Hfail holdingY); [simpl; auto | split; reflexivity].
  - destruct (valuation_all_or_nothing [holdingX] world0) as [_ Hok].
    destruct Hok as (quotes & v & Hv & _ & Hh & _).
    + discriminate.
    + intros h [<- | []] [_ H]. discriminate H.
    + exists quotes, v. auto.
Defined.

Lemma revaluation_same_figures_witness :
  exists v1 w1 v2 w2,
    calculatePortfolioValue [holdingX] world0 = (Ok v1, w1)
    /\ calculatePortfolioValue [holdingX] (elapse 1000 w1) = (Ok v2, w2)
    /\ untimed v2 = untimed v1.
Proof.
  destruct (calculatePortfolioValue [holdingX] world0) as [[v1 | msg] w1] eqn:E.
  - destruct (revaluation_same_figures [holdingX] world0 w1 v1 1000) as (v2 & w2 & E2 & Hsame).
    + intros s e H. discriminate H.
    + exact E.
    + exists v1, w1, v2, w2. auto.
  - vm_compute in E. discriminate E.
Defined.

(** * Further properties of the service and of the router *)

(** ** [calculateSMA] *)

Lemma sum_from_Fin (qs : list Q) (a : Q) :
  fold_left add (map Fin qs) (Fin a) = Fin (fold_left Qplus qs a).
Proof.
  revert a. induction qs as [| q qs IH]; intros a; simpl; [reflexivity | apply IH].
Qed.

Lemma Qsum_bounds (lo hi : Q) (qs : list Q) :
  (forall q, In q qs -> lo <= q <= hi) ->
  forall a,
    a + lo * inject_Z (Z.of_nat (length qs)) <= fold_left Qplus qs a
    /\ fold_left Qplus qs a <= a + hi * inject_Z (Z.of_nat (length qs)).
Proof.
  induction qs as [| q qs IH]; intros Hb a; simpl fold_left.
  - change (inject_Z (Z.of_nat (length (@nil Q)))) with 0. lra.
  - assert (Hq : lo <= q <= hi) by (apply Hb; left; reflexivity).
    destruct (IH (fun x Hx => Hb x (or_intror Hx)) (a + q)) as [H1 H2].
    assert (E : inject_Z (Z.of_nat (length (q :: qs)))
                == inject_Z (Z.of_nat (length qs)) + 1).
    { simpl length. rewrite Nat2Z.inj_succ, <- Z.add_1_r, inject_Z_plus. reflexivity. }
    rewrite E. split; lra.
Qed.

Lemma calculateSMA_bounds (prices : list num) (period : nat) (lo hi : Q) :
  well_formed prices = true ->
  (0 < period <= length prices)%nat ->
  (forall q, In (Fin q) (slice_last period prices) -> lo <= q <= hi) ->
  exists m, calculateSMA prices period = Fin m /\ lo <= m <= hi.
Proof.
  intros Hwf Hp Hb. unfold calculateSMA, len.
  destruct (Z.ltb_spec (Z.of_nat (length prices)) (Z.of_nat period)); [lia |].
  destruct (well_formed_map prices Hwf) as [qs ->].
  rewrite slice_last_map in Hb |- *.
  assert (Hlen : length (slice_last period qs) = period).
  { apply slice_last_length. rewrite length_map in Hp. exact Hp. }
  rewrite length_map, Hlen. unfold sum, zero. rewrite sum_from_Fin.
  pose proof (of_count_pos period (proj1 Hp)) as Hpos.
  unfold of_count. rewrite div_Fin_pos by exact Hpos.
  eexists. split; [reflexivity |].
  destruct (Qsum_bounds lo hi (slice_last period qs)
              (fun q Hq => Hb q (proj2 (In_map_Fin q _) Hq)) 0) as [H1 H2].
  rewrite Hlen in H1, H2.
  split.
  - apply Qle_shift_div_l; [exact Hpos | lra].
  - apply Qle_shift_div_r; [exact Hpos | lra].
Qed.

(** X1.  In exact arithmetic, with at least [period] finite prices
    ([period] positive) the SMA is a finite number that lies between any two
    bounds of the last [period] prices: it is a mean of the window and of
    nothing else. *)
Theorem calculateSMA_within_window (prices : list num) (period : nat) (lo hi : Q) :
  well_formed prices = true ->
  (0 < period <= length prices)%nat ->
  (forall q, In (Fin q) (slice_last period prices) -> lo <= q <= hi) ->
  exists m, calculateSMA prices period = Fin m /\ lo <= m <= hi.
Proof. apply calculateSMA_bounds. Qed.

(** X2.  The SMA of a constant series is that constant. *)
Theorem calculateSMA_constant (v : Q) (n period : nat) :
  (0 < period <= n)%nat ->
  same (calculateSMA (repeat (Fin v) n) period) (Fin v).
Proof.
  intros Hp.
  destruct (calculateSMA_bounds (repeat (Fin v) n) period v v) as (m & -> & Hm).
  - unfold well_formed. apply forallb_forall. intros x Hx.
    apply repeat_spec in Hx. subst x. reflexivity.
  - rewrite repeat_length. exact Hp.
  - intros q Hq. apply slice_last_subset, repeat_spec in Hq.
    injection Hq as ->. lra.
  - simpl. lra.
Qed.

Lemma slice_last_app {A : Type} (older recent : list A) :
  recent <> [] -> slice_last (length recent) (older ++ recent) = recent.
Proof.
  intros Hne. destruct recent as [| x rest]; [congruence |].
  unfold slice_last. cbn [length].
  rewrite length_app. cbn [length].
  replace (length older + S (length rest) - S (length rest))%nat with (length older) by lia.
  rewrite skipn_app, skipn_all, Nat.sub_diag. reflexivity.
Qed.

(** X3.  The SMA looks at the last [period] prices only: whatever comes
    before them does not change it. *)
Theorem calculateSMA_ignores_older (older recent : list num) :
  recent <> [] ->
  calculateSMA (older ++ recent) (length recent) = calculateSMA recent (length recent).
Proof.
  intros Hne. unfold calculateSMA, len.
  rewrite length_app.
  destruct (Z.ltb_spec (Z.of_nat (length older + length recent)) (Z.of_nat (length recent)));
    [lia |].
  rewrite Z.ltb_irrefl.
  rewrite (slice_last_app older recent Hne).
  pose proof (slice_last_app [] recent Hne) as E. cbn [app] in E. rewrite E.
  reflexivity.
Qed.

(** ** [calculateRSI] on monotone series *)

Lemma rsi_loop_length (rest : list num) :
  forall prev gains losses,
    length (fst (rsi_loop prev rest gains losses)) = (length gains + length rest)%nat
    /\ length (snd (rsi_loop prev rest gains losses)) = (length losses + length rest)%nat.
Proof.
  induction rest as [| p rest IH]; intros prev gains losses; simpl.
  - split; lia.
  - split; [rewrite (proj1 (IH _ _ _)) | rewrite (proj2 (IH _ _ _))];
      rewrite length_app; simpl; lia.
Qed.

Lemma rsi_gains_losses_length (prices : list num) :
  length (fst (rsi_gains_losses prices)) = (length prices - 1)%nat
  /\ length (snd (rsi_gains_losses prices)) = (length prices - 1)%nat.
Proof.
  destruct prices as [| p0 rest]; simpl; [split; reflexivity |].
  destruct (rsi_loop_length rest p0 [] []) as [H1 H2]. rewrite H1, H2.
  simpl. split; lia.
Qed.

(** The sign of a finite change, read through the comparisons of the code. *)
Lemma change_sign (p prev : Q) :
  lt (sub (Fin p) (Fin prev)) zero = lt (Fin p) (Fin prev)
  /\ gt (sub (Fin p) (Fin prev)) zero = lt (Fin prev) (Fin p).
Proof.
  unfold gt, zero. simpl.
  destruct (Qcompare_spec (p + - prev) 0), (Qcompare_spec p prev),
    (Qcompare_spec 0 (p + - prev)), (Qcompare_spec prev p);
    split; try reflexivity; exfalso; lra.
Qed.

Lemma rsi_loop_never_falls (rest : list num) :
  forall prev gains losses,
    is_fin prev = true -> well_formed rest = true ->
    never_falls_from prev rest = true ->
    Forall (eq zero) losses ->
    Forall (eq zero) (snd (rsi_loop prev rest gains losses)).
Proof.
  induction rest as [| p rest IH]; intros prev gains losses Hprev Hwf Hmono Hl;
    cbn [rsi_loop].
  - exact Hl.
  - simpl in Hwf, Hmono.
    apply andb_prop in Hwf as [Hp Hrest]. apply andb_prop in Hmono as [Hstep Hmono].
    apply IH; try assumption.
    apply Forall_app. split; [exact Hl |]. constructor; [| constructor].
    destruct p as [a | | |], prev as [b | | |]; try discriminate.
    destruct (change_sign a b) as [E _]. rewrite E.
    apply negb_true_iff in Hstep. rewrite Hstep. reflexivity.
Qed.

Lemma rsi_loop_always_falls (rest : list num) :
  forall prev gains losses,
    is_fin prev = true -> well_formed rest = true ->
    always_falls_from prev rest = true ->
    Forall (eq zero) gains -> Forall positive losses ->
    Forall (eq zero) (fst (rsi_loop prev rest gains losses))
    /\ Forall positive (snd (rsi_loop prev rest gains losses)).
Proof.
  induction rest as [| p rest IH]; intros prev gains losses Hprev Hwf Hmono Hg Hl;
    cbn [rsi_loop].
  - split; assumption.
  - simpl in Hwf, Hmono.
    apply andb_prop in Hwf as [Hp Hrest]. apply andb_prop in Hmono as [Hstep Hmono].
    destruct p as [a | | |], prev as [b | | |]; try discriminate.
    destruct (change_sign a b) as [El Eg].
    assert (Hab : a < b).
    { simpl in Hstep. destruct (Qcompare_spec a b); try discriminate. assumption. }
    apply IH; try assumption.
    + apply Forall_app. split; [exact Hg |]. constructor; [| constructor].
      rewrite Eg. simpl. destruct (Qcompare_spec b a); try reflexivity. exfalso. lra.
    + apply Forall_app. split; [exact Hl |]. constructor; [| constructor].
      rewrite El, Hstep. cbn [sub neg add abs positive].
      apply Qabs_case; intros; lra.
Qed.

Lemma sum_zeros (xs : list num) : Forall (eq zero) xs -> sum xs = zero.
Proof.
  unfold sum. induction 1 as [| x xs <- _ IH]; simpl; [reflexivity | exact IH].
Qed.

Lemma positive_add (x y : num) : positive x -> positive y -> positive (add x y).
Proof. destruct x, y; simpl; try tauto. intros. lra. Qed.

Lemma positive_sum_from (xs : list num) (acc : num) :
  positive acc -> Forall positive xs -> positive (fold_left add xs acc).
Proof.
  revert acc. induction xs as [| x xs IH]; intros acc Hacc Hxs; simpl; [exact Hacc |].
  inversion Hxs; subst. apply IH; [apply positive_add |]; assumption.
Qed.

Lemma positive_sum (xs : list num) : xs <> [] -> Forall positive xs -> positive (sum xs).
Proof.
  intros Hne Hxs. destruct xs as [| x xs]; [congruence |].
  inversion Hxs; subst. unfold sum. simpl. apply positive_sum_from; [| assumption].
  destruct x; simpl in *; try tauto. lra.
Qed.

Lemma zero_over_count (period : nat) :
  (0 < period)%nat -> strict_eq (div zero (of_count period)) zero = true.
Proof.
  intros Hp. unfold zero, of_count.
  rewrite div_Fin_pos by (apply of_count_pos; exact Hp).
  simpl. apply Qeq_bool_iff. unfold Qdiv. ring.
Qed.

(** X4.  On a series of finite prices that never falls (a flat series
    included) there is no loss in the window and the RSI is exactly [100]. *)
Theorem calculateRSI_never_falls (prices : list num) (period : nat) :
  well_formed prices = true -> never_falls prices = true ->
  (0 < period)%nat -> (period + 1 <= length prices)%nat ->
  calculateRSI prices period = Fin 100.
Proof.
  intros Hwf Hmono Hp Hlen.
  rewrite calculateRSI_long by exact Hlen.
  assert (Hz : Forall (eq zero) (snd (rsi_gains_losses prices))).
  { destruct prices as [| p0 rest]; [constructor |].
    simpl in Hwf. apply andb_prop in Hwf as [H0 Hrest].
    apply rsi_loop_never_falls; auto. }
  unfold rsi_avgLoss at 1.
  rewrite (sum_zeros _ (Forall_slice_last _ period _ Hz)).
  rewrite (zero_over_count period Hp). reflexivity.
Qed.

(** X5.  On a series of finite prices in which every price is below the one
    before it there is no gain in the window and the RSI is [0]. *)
Theorem calculateRSI_always_falls (prices : list num) (period : nat) :
  well_formed prices = true -> always_falls prices = true ->
  (0 < period)%nat -> (period + 1 <= length prices)%nat ->
  same (calculateRSI prices period) (Fin 0).
Proof.
  intros Hwf Hmono Hp Hlen.
  rewrite calculateRSI_long by exact Hlen.
  assert (Hgl : Forall (eq zero) (fst (rsi_gains_losses prices))
                /\ Forall positive (snd (rsi_gains_losses prices))).
  { destruct prices as [| p0 rest]; [split; constructor |].
    simpl in Hwf. apply andb_prop in Hwf as [H0 Hrest].
    apply rsi_loop_always_falls; auto. }
  destruct Hgl as [Hg Hl].
  pose proof (of_count_pos period Hp) as Hpos.
  unfold rsi_avgGain, rsi_avgLoss.
  rewrite (sum_zeros _ (Forall_slice_last _ period _ Hg)).
  assert (Hwin : length (slice_last period (snd (rsi_gains_losses prices))) = period).
  { apply slice_last_length. rewrite (proj2 (rsi_gains_losses_length prices)). lia. }
  assert (Hsum : positive (sum (slice_last period (snd (rsi_gains_losses prices))))).
  { apply positive_sum; [| apply Forall_slice_last, Hl].
    intros E. rewrite E in Hwin. simpl in Hwin. lia. }
  destruct (sum (slice_last period (snd (rsi_gains_losses prices)))) as [L | | |];
    simpl in Hsum; try contradiction.
  unfold zero, of_count.
  set (P := inject_Z (Z.of_nat period)) in *.
  rewrite !(div_Fin_pos _ P) by exact Hpos.
  assert (HLP : 0 < L / P) by (apply Qlt_shift_div_l; [exact Hpos | lra]).
  assert (Hne : strict_eq (Fin (L / P)) (Fin 0) = false).
  { simpl. destruct (Qeq_bool (L / P) 0) eqn:E; [| reflexivity].
    apply Qeq_bool_iff in E. lra. }
  rewrite Hne.
  rewrite (div_Fin_pos _ (L / P)) by exact HLP.
  assert (Hrs : 0 / P / (L / P) == 0) by (unfold Qdiv; ring).
  cbn [add].
  assert (Hd : 0 < 1 + 0 / P / (L / P)) by (rewrite Hrs; lra).
  rewrite (div_Fin_pos 100 _ Hd).
  cbn [sub neg add same]. rewrite Hrs. reflexivity.
Qed.

(** ** [calculatePriceChange] and the reference price *)

(** X6.  With more than [days] prices and a reference price
    [prices[len - 1 - days]] that is zero, nothing guards the division: the
    result is never a finite number, [NaN] when the latest price is zero as
    well and an infinity otherwise. *)
Theorem calculatePriceChange_zero_reference (prices : list num) (days : nat)
    (current previous : Q) :
  (days < length prices)%nat ->
  last prices = Some (Fin current) ->
  prices !! (length prices - 1 - days)%nat = Some (Fin previous) ->
  previous == 0 ->
  is_fin (calculatePriceChange prices days) = false
  /\ (current == 0 -> calculatePriceChange prices days = NaN)
  /\ (~ current == 0 ->
      calculatePriceChange prices days = PInf \/ calculatePriceChange prices days = NInf).
Proof.
  intros Hlen Hlast Hprev Hzero.
  rewrite (calculatePriceChange_long prices days _ _ Hlen Hlast Hprev).
  cbn [sub neg add div]. apply Qeq_alt in Hzero as Hcmp. rewrite Hcmp.
  destruct (Qcompare_spec (current + - previous) 0) as [E | E | E]; cbn.
  - split; [reflexivity |]. split; [reflexivity |]. intros Hc. exfalso. apply Hc. lra.
  - split; [reflexivity |]. split; [intros Hc; exfalso; lra | right; reflexivity].
  - split; [reflexivity |]. split; [intros Hc; exfalso; lra | left; reflexivity].
Qed.

(** ** The usable numbers of a column *)

Lemma usable_numbers_kept (column : list value) :
  Forall (fun n => falsy n = false /\ is_nan n = false) (usable_numbers column).
Proof.
  induction column as [| p rest IH]; simpl; [constructor |].
  destruct p as [| n]; simpl; [exact IH |].
  destruct (falsy n) eqn:Ef; simpl; [exact IH |].
  destruct (is_nan n) eqn:En; simpl; [exact IH |].
  constructor; [split; assumption | exact IH].
Qed.

(** X7.  The closes that [getStockStatistics] keeps contain no zero and no
    [NaN], so on them the price change over [days] bars, with more than
    [days] closes kept, reads two numbers and divides by one that is neither
    zero nor [NaN]: the unguarded division never meets a zero, a [NaN] or an
    [undefined] reference price there. *)
Theorem priceChange_on_usable_closes (column : list value) (days : nat) :
  (days < length (usable_numbers column))%nat ->
  exists current previous,
    last (usable_numbers column) = Some current
    /\ usable_numbers column !! (length (usable_numbers column) - 1 - days)%nat
       = Some previous
    /\ falsy previous = false /\ is_nan previous = false
    /\ calculatePriceChange (usable_numbers column) days
       = mul (div (sub current previous) previous) (Fin 100).
Proof.
  intros Hlen. set (kept := usable_numbers column) in *.
  destruct (last kept) as [current |] eqn:Hlast.
  - destruct (lookup_lt_is_Some_2 kept (length kept - 1 - days)) as [previous Hprev];
      [lia |].
    exists current, previous.
    split; [reflexivity |]. split; [exact Hprev |].
    pose proof (usable_numbers_kept column) as Hkept. fold kept in Hkept.
    rewrite Forall_forall in Hkept.
    destruct (Hkept previous) as [Hf Hn]; [eapply list_elem_of_lookup_2, Hprev |].
    split; [exact Hf |]. split; [exact Hn |].
    apply calculatePriceChange_long; assumption.
  - apply last_None in Hlast. rewrite Hlast in Hlen. simpl in Hlen. lia.
Qed.

(** ** [calculateAverageVolume] and the volume ratio *)

(** X8.  On finite volumes the volume ratio is always a finite number: it
    is [0] with fewer than 20 volumes, and otherwise the division is made
    only by a positive average. *)
Theorem volumeRatio_finite (volumes : list num) :
  well_formed volumes = true ->
  is_fin (volumeRatio volumes) = true
  /\ ((length volumes < 20)%nat -> volumeRatio volumes = Fin 0).
Proof.
  intros Hwf. unfold volumeRatio, calculateAverageVolume, len.
  destruct (Z.ltb_spec (Z.of_nat (length volumes)) (Z.of_nat 20)) as [Hshort | Hlong].
  - split; reflexivity.
  - split; [| intros; lia].
    destruct (well_formed_map volumes Hwf) as [qs ->].
    rewrite length_map in Hlong.
    rewrite slice_last_map, length_map.
    rewrite slice_last_length by lia.
    unfold sum, zero, of_count. rewrite sum_from_Fin.
    rewrite div_Fin_pos by (apply of_count_pos; lia).
    set (avg := fold_left Qplus (slice_last 20 qs) 0 / inject_Z (Z.of_nat 20)).
    unfold gt. cbn [lt].
    destruct (Qcompare_spec 0 avg) as [| Hpos |]; try reflexivity.
    destruct (last_well_formed (map Fin qs)) as [l Hl].
    + unfold well_formed. apply forallb_forall. intros x Hx.
      apply in_map_iff in Hx as (q & <- & _). reflexivity.
    + destruct qs; [simpl in Hlong; lia | discriminate].
    + pose proof (get_last _ _ Hl) as Hget. unfold len in Hget.
      rewrite ?length_map in Hget |- *. rewrite Hget. cbn [toNumber].
      rewrite div_Fin_pos by exact Hpos. reflexivity.
Qed.

(** ** The cache around [getStockQuote] *)

Lemma getCached_None_later (key : string) (w w' : World) :
  getCached key w = None -> cache w' = cache w -> (clock w <= clock w')%Z ->
  getCached key w' = None.
Proof.
  unfold getCached. intros H Hc Ht. rewrite Hc.
  destruct (cache w !! key) as [e |]; [| reflexivity].
  destruct (Z.ltb_spec (clock w - timestamp e) cacheTimeout); [discriminate |].
  destruct (Z.ltb_spec (clock w' - timestamp e) cacheTimeout); [lia | reflexivity].
Qed.

(** X9.  A rejected fetch stores nothing: the call fails, the cache is as
    it was, and the next call for the symbol, at any later time, asks the
    provider again. *)
Theorem getStockQuote_failure_not_cached (symbol : string) (w : World) :
  rejected w symbol ->
  fst (getStockQuote symbol w) = Err ("Failed to fetch data for " +:+ symbol)
  /\ cache (snd (getStockQuote symbol w)) = cache w
  /\ calls (snd (getStockQuote symbol w)) = calls w ++ [symbol]
  /\ forall dt, (0 <= delay (market w symbol))%Z -> (0 <= dt)%Z ->
       calls (snd (getStockQuote symbol (elapse dt (snd (getStockQuote symbol w)))))
       = calls w ++ [symbol; symbol].
Proof.
  intros [Hmiss Hrej].
  rewrite (getStockQuote_miss symbol w Hmiss). cbv zeta. rewrite Hrej. cbn [fst snd].
  repeat split.
  intros dt Hdelay Hdt.
  set (w1 := elapse (delay (market w symbol)) (log_call symbol w)).
  assert (Hmiss2 : getCached (quote_key symbol) (elapse dt w1) = None).
  { apply (getCached_None_later _ w); [exact Hmiss | reflexivity | simpl; lia]. }
  rewrite (getStockQuote_miss _ _ Hmiss2). cbv zeta.
  destruct (outcome _); simpl; rewrite <- app_assoc; reflexivity.
Qed.

(** X10.  After [clearCache] no quote is served from the cache: the next
    call for any symbol asks the provider, however fresh its entry was. *)
Theorem clearCache_forces_fetch (symbol : string) (w : World) :
  getCached (quote_key symbol) (clearCache w) = None
  /\ calls (snd (getStockQuote symbol (clearCache w))) = calls w ++ [symbol].
Proof.
  assert (H : getCached (quote_key symbol) (clearCache w) = None).
  { unfold getCached, clearCache, set_cache. simpl. rewrite lookup_empty. reflexivity. }
  split; [exact H |].
  rewrite (getStockQuote_miss _ _ H). cbv zeta.
  destruct (outcome _); reflexivity.
Qed.

Lemma getStockQuote_frame (symbol key : string) (w : World) :
  key <> quote_key symbol ->
  cache (snd (getStockQuote symbol w)) !! key = cache w !! key.
Proof.
  intros Hne. unfold getStockQuote, getStockQuote_begin.
  destruct (getCached (quote_key symbol) w) as [cached |]; [reflexivity |].
  unfold getStockQuote_resume.
  destruct (outcome (market (log_call symbol w) symbol)); [| reflexivity].
  unfold setCached, set_cache. simpl. apply lookup_insert_ne. congruence.
Qed.

(** X11.  A call for one symbol writes under the key of that symbol only:
    every other entry of the cache is left as it was. *)
Theorem getStockQuote_other_keys (symbol key : string) (w : World) :
  key <> quote_key symbol ->
  cache (snd (getStockQuote symbol w)) !! key = cache w !! key.
Proof. apply getStockQuote_frame. Qed.

(** ** The calls of a batch *)

(** The symbols of a batch that the cache does not serve on entry. *)
Lemma begin_all_calls (symbols : list string) (w0 : World) :
  forall w, clock w = clock w0 -> cache w = cache w0 ->
    calls (snd (begin_all symbols w))
    = calls w ++ List.filter (fun s => match getCached (quote_key s) w0 with
                                       | Some _ => false
                                       | None => true
                                       end) symbols.
Proof.
  induction symbols as [| s rest IH]; intros w Hc Hk; simpl.
  - rewrite app_nil_r. reflexivity.
  - unfold getStockQuote_begin.
    rewrite (getCached_ext (quote_key s) w0 w Hc Hk).
    destruct (getCached (quote_key s) w0) as [cached |].
    + specialize (IH w Hc Hk). destruct (begin_all rest w) as [ps w2]. exact IH.
    + specialize (IH (log_call s w) Hc Hk).
      destruct (begin_all rest (log_call s w)) as [ps w2].
      simpl in IH |- *. rewrite IH, <- app_assoc. reflexivity.
Qed.

Lemma resume_all_calls (ps : list Pending) :
  forall w, calls (snd (resume_all ps w)) = calls w.
Proof.
  induction ps as [| p rest IH]; intros w; simpl; [reflexivity |].
  destruct p as [cached | s]; simpl.
  - specialize (IH w). destruct (resume_all rest w) as [rs w2]. exact IH.
  - destruct (outcome (market w s)) as [raw |].
    + set (w1 := setCached _ _ _). specialize (IH w1).
      destruct (resume_all rest w1) as [rs w2]. exact IH.
    + set (w1 := elapse _ _). specialize (IH w1).
      destruct (resume_all rest w1) as [rs w2]. exact IH.
Qed.

(** X12.  A batch asks the provider once for each listed symbol that has no
    fresh entry on entry, in the order of the list and as often as the symbol
    is listed: a symbol listed twice and not cached is fetched twice. *)
Theorem getMultipleQuotes_calls (symbols : list string) (w : World) :
  calls (snd (getMultipleQuotes symbols w))
  = calls w ++ List.filter (fun s => match getCached (quote_key s) w with
                                     | Some _ => false
                                     | None => true
                                     end) symbols.
Proof.
  unfold getMultipleQuotes.
  pose proof (begin_all_calls symbols w w eq_refl eq_refl) as Hb.
  destruct (begin_all symbols w) as [ps w1].
  pose proof (resume_all_calls ps w1) as Hr.
  destruct (resume_all ps w1) as [rs w2].
  simpl in Hb, Hr. destruct (promise_all rs); simpl; congruence.
Qed.

(** X13.  A batch that succeeds returns one quote per listed symbol, in the
    order of the list, each the quote its symbol resolves to: the fresh cached
    one, or else the provider's answer. *)
Theorem getMultipleQuotes_one_per_symbol (symbols : list string) (w w' : World)
    (quotes : list Quote.t) :
  getMultipleQuotes symbols w = (Ok quotes, w') ->
  length quotes = length symbols /\ Forall2 (settles w) symbols quotes.
Proof.
  intros E.
  destruct (getMultipleQuotes_spec symbols w) as (w2 & _ & _ & [(qs & E2 & Hf) | (E2 & _)]);
    rewrite E2 in E; [| discriminate].
  injection E as <- <-.
  split; [symmetry; eapply Forall2_length, Hf | exact Hf].
Qed.

(** ** More on [calculatePortfolioValue] *)

Lemma settles_symbol (w : World) (s : string) (q : Quote.t) :
  echoes w -> settles w s q -> Quote.symbol q = s.
Proof.
  intros [Hm Hc] [H | (_ & raw & t & Hraw & ->)].
  - apply getCached_entry in H as (e & He & <-). apply Hc, He.
  - simpl. apply Hm, Hraw.
Qed.

Lemma find_quote_present (quotes : list Quote.t) (h : Holding.t) (q : Quote.t) :
  In q quotes -> Quote.symbol q = Holding.symbol h ->
  exists q', find_quote quotes h = Some q' /\ Quote.symbol q' = Holding.symbol h.
Proof.
  intros Hin Hs. unfold find_quote.
  destruct (find _ quotes) as [q' |] eqn:E.
  - exists q'. split; [reflexivity |].
    apply find_some in E as [_ E]. apply String.eqb_eq, E.
  - exfalso. pose proof (find_none _ _ E q Hin) as Hn. simpl in Hn.
    rewrite Hs, String.eqb_refl in Hn. discriminate.
Qed.

Lemma included_all (quotes : list Quote.t) (holdings : list Holding.t) :
  (forall h, In h holdings ->
     exists q, find_quote quotes h = Some q /\ Quote.symbol q = Holding.symbol h) ->
  Forall2 (fun h x => exists q, Quote.symbol q = Holding.symbol h /\ x = value_holding h q)
    holdings (map value_pair (included quotes holdings)).
Proof.
  induction holdings as [| h rest IH]; intros H; simpl; [constructor |].
  destruct (H h (or_introl eq_refl)) as (q & -> & Hq). simpl.
  constructor; [eauto | apply IH; intros; apply H; right; assumption].
Qed.

Lemma calculatePortfolioValue_Ok (holdings : list Holding.t) (w w' : World) (v : Valuation.t) :
  holdings <> [] -> calculatePortfolioValue holdings w = (Ok v, w') ->
  exists quotes,
    Forall2 (settles w) (map Holding.symbol holdings) quotes
    /\ v = valuation_of quotes holdings (clock w').
Proof.
  intros Hne E. rewrite calculatePortfolioValue_nonempty in E by exact Hne.
  destruct (getMultipleQuotes_spec (map Holding.symbol holdings) w)
    as (w2 & _ & _ & [(qs & E2 & Hf) | (E2 & _)]); rewrite E2 in E; [| discriminate].
  injection E as <- <-. eauto.
Qed.

Lemma Forall2_In_map {A B C : Type} (f : A -> B) (R : B -> C -> Prop)
    (xs : list A) (ys : list C) (x : A) :
  Forall2 R (map f xs) ys -> In x xs -> exists y, In y ys /\ R (f x) y.
Proof.
  intros Hf Hin. eapply Forall2_In_l; [exact Hf | apply in_map, Hin].
Qed.

(** X14.  When the provider answers under the symbol it is asked for (and
    the cache holds such answers), a valuation that succeeds lists every
    holding, once and in the order of the portfolio, each valued with a quote
    of its own symbol: no holding is left out. *)
Theorem valuation_lists_every_holding (holdings : list Holding.t) (w w' : World)
    (v : Valuation.t) :
  echoes w ->
  calculatePortfolioValue holdings w = (Ok v, w') ->
  Forall2 (fun h x => exists q, Quote.symbol q = Holding.symbol h /\ x = value_holding h q)
    holdings (Valuation.holdings v).
Proof.
  intros Hecho E.
  destruct holdings as [| h0 rest] eqn:Eh.
  { injection E as <- _. constructor. }
  rewrite <- Eh in *.
  destruct (calculatePortfolioValue_Ok holdings w w' v) as (quotes & Hf & ->);
    [rewrite Eh; discriminate | exact E |].
  cbn [valuation_of Valuation.holdings]. apply included_all.
  intros h Hh.
  destruct (Forall2_In_map Holding.symbol _ _ _ h Hf Hh) as (q & Hq & Hset).
  apply (find_quote_present quotes h q Hq). apply (settles_symbol w); assumption.
Qed.

Lemma is_fin_add (x y : num) : is_fin x = true -> is_fin y = true -> is_fin (add x y) = true.
Proof. destruct x, y; simpl; congruence. Qed.

Lemma is_fin_mul (x y : num) : is_fin x = true -> is_fin y = true -> is_fin (mul x y) = true.
Proof. destruct x, y; simpl; congruence. Qed.

Lemma is_fin_fold_add {A : Type} (f : A -> num) (xs : list A) (acc : num) :
  is_fin acc = true -> (forall x, In x xs -> is_fin (f x) = true) ->
  is_fin (fold_left (fun sum x => add sum (f x)) xs acc) = true.
Proof.
  revert acc. induction xs as [| x xs IH]; intros acc Hacc H; simpl; [exact Hacc |].
  apply IH; [apply is_fin_add; [exact Hacc | apply H; left; reflexivity] |].
  intros y Hy. apply H. right. exact Hy.
Qed.

Lemma is_fin_sum_map {A : Type} (f : A -> num) (xs : list A) :
  (forall x, In x xs -> is_fin (f x) = true) -> is_fin (sum (map f xs)) = true.
Proof.
  intros H. unfold sum.
  assert (G : forall acc, is_fin acc = true ->
                is_fin (fold_left add (map f xs) acc) = true).
  { induction xs as [| x xs IH]; intros acc Hacc; simpl; [exact Hacc |].
    apply IH; [intros y Hy; apply H; right; exact Hy |].
    apply is_fin_add; [exact Hacc | apply H; left; reflexivity]. }
  apply G. reflexivity.
Qed.

(** The guarded percentage [d > 0 ? (n / d) * 100 : 0] is finite on finite
    arguments. *)
Lemma guarded_percent_fin (n d : num) :
  is_fin n = true -> is_fin d = true ->
  is_fin (if gt d zero then mul (div n d) (Fin 100) else zero) = true.
Proof.
  destruct n as [a | | |], d as [b | | |]; try discriminate. intros _ _.
  unfold gt, zero. cbn [lt].
  destruct (Qcompare_spec 0 b) as [| Hpos |]; try reflexivity.
  rewrite div_Fin_pos by exact Hpos. reflexivity.
Qed.

Lemma settles_finite (w : World) (s : string) (q : Quote.t) :
  finite_quotes w -> settles w s q -> is_fin (Quote.currentPrice q) = true.
Proof.
  intros [Hm Hc] [H | (_ & raw & t & Hraw & ->)].
  - apply getCached_entry in H as (e & He & <-). eapply Hc, He.
  - simpl. eapply Hm, Hraw.
Qed.

Lemma Forall2_In_r {A B : Type} (R : A -> B -> Prop) (xs : list A) (ys : list B) (y : B) :
  Forall2 R xs ys -> In y ys -> exists x, In x xs /\ R x y.
Proof.
  induction 1 as [| a b xs ys Hab _ IH]; simpl; [tauto |].
  intros [<- | Hin]; [eauto |].
  destruct (IH Hin) as (x & Hx & Hr). eauto.
Qed.

(** X15.  In exact arithmetic, with finite shares, average prices and
    quoted prices, the aggregate figures of a valuation that succeeds are all
    finite numbers: the total percentage is guarded, whatever the per-holding
    percentages are. *)
Theorem valuation_totals_finite (holdings : list Holding.t) (w w' : World)
    (v : Valuation.t) :
  forallb finite_holding holdings = true ->
  finite_quotes w ->
  calculatePortfolioValue holdings w = (Ok v, w') ->
  is_fin (Valuation.totalValue v) = true
  /\ is_fin (Valuation.totalGainLoss v) = true
  /\ is_fin (Valuation.totalGainLossPercent v) = true
  /\ (forall c, Valuation.totalCost v = Some c -> is_fin c = true).
Proof.
  intros Hfin Hq E.
  destruct holdings as [| h0 rest] eqn:Eh.
  { injection E as <- _. repeat split. discriminate. }
  rewrite <- Eh in *.
  destruct (calculatePortfolioValue_Ok holdings w w' v) as (quotes & Hf & ->);
    [rewrite Eh; discriminate | exact E |].
  assert (Hpair : forall hq, In hq (included quotes holdings) ->
            is_fin (Holding.shares (fst hq)) = true
            /\ is_fin (Holding.avgPrice (fst hq)) = true
            /\ is_fin (Quote.currentPrice (snd hq)) = true).
  { intros [h q] Hin. apply included_quote in Hin as (Hh & _ & Hqin & _). simpl.
    rewrite forallb_forall in Hfin. specialize (Hfin h Hh).
    apply andb_prop in Hfin as [H1 H2].
    destruct (Forall2_In_r _ _ _ _ Hf Hqin) as (s & _ & Hs).
    pose proof (settles_finite w s q Hq Hs). auto. }
  assert (Hv : is_fin (sum (map (fun hq => Valued.currentValue (value_pair hq))
                              (included quotes holdings))) = true).
  { apply is_fin_sum_map. intros hq Hin. destruct (Hpair hq Hin) as (H1 & _ & H3).
    simpl. apply is_fin_mul; assumption. }
  assert (Hc : is_fin (sum (map (fun hq => costBasis (fst hq))
                              (included quotes holdings))) = true).
  { apply is_fin_sum_map. intros hq Hin. destruct (Hpair hq Hin) as (H1 & H2 & _).
    unfold costBasis. apply is_fin_mul; assumption. }
  cbn [valuation_of Valuation.totalValue Valuation.totalGainLoss
       Valuation.totalGainLossPercent Valuation.totalCost].
  split; [exact Hv |].
  split; [apply sub_fin; assumption |].
  split; [apply guarded_percent_fin; [apply sub_fin |]; assumption |].
  intros c [= <-]. exact Hc.
Qed.

(** ** The router with the in-memory store: [PUT /update/:stockId] and [DELETE /remove/:stockId] *)

Lemma findIndex_first {A : Type} (pred : A -> bool) (before after : list A) (x : A) :
  (forall y, In y before -> pred y = false) -> pred x = true ->
  findIndex pred (before ++ x :: after) = Some (length before).
Proof.
  intros Hb Hx. induction before as [| y before IH]; simpl.
  - rewrite Hx. reflexivity.
  - rewrite (Hb y (or_introl eq_refl)), IH; [reflexivity |].
    intros z Hz. apply Hb. right. exact Hz.
Qed.

Lemma findIndex_split {A : Type} (pred : A -> bool) (xs : list A) (i : nat) :
  findIndex pred xs = Some i ->
  exists before x after,
    xs = before ++ x :: after /\ length before = i
    /\ (forall y, In y before -> pred y = false) /\ pred x = true.
Proof.
  revert i. induction xs as [| y xs IH]; intros i H; simpl in H; [discriminate |].
  destruct (pred y) eqn:Hy.
  - injection H as <-. exists [], y, xs. repeat split; auto. intros z [].
  - destruct (findIndex pred xs) as [j |]; [| discriminate]. injection H as <-.
    destruct (IH j eq_refl) as (before & x & after & -> & Hl & Hb & Hx).
    exists (y :: before), x, after. repeat split; auto.
    + simpl. f_equal. exact Hl.
    + intros z [<- | Hz]; auto.
Qed.

(** X19.  In the router with the in-memory store, an update rewrites the
    first entry with the given id and nothing else: the entries before and
    after it are kept, and the entry keeps its id, symbol, purchase date and
    current price while its value and gain are recomputed from that stored
    current price; a field that is not sent keeps its value.  With no such
    entry, or no portfolio, the answer is a 404 and the store is as it
    was. *)
Theorem put_update_effect (parse_text : string -> num) (stockId : string)
    (req : UpdateRequest) (store : option (list Stock.t)) :
  (forall portfolio, store = Some portfolio ->
     (forall x, In x portfolio -> has_id stockId x = false) ->
     put_update parse_text stockId req store
     = (NotFound "Stock not found in portfolio", store))
  /\ (store = None ->
      put_update parse_text stockId req store = (NotFound "Portfolio not found", store))
  /\ (forall before stock after,
        store = Some (before ++ stock :: after) ->
        (forall x, In x before -> has_id stockId x = false) ->
        has_id stockId stock = true ->
        let stock' := update_entry parse_text stock req in
        put_update parse_text stockId req store
        = (Listed (before ++ stock' :: after)
             (calculateTotalValue (before ++ stock' :: after)),
           Some (before ++ stock' :: after))
        /\ Stock.id stock' = Stock.id stock
        /\ Stock.symbol stock' = Stock.symbol stock
        /\ Stock.purchaseDate stock' = Stock.purchaseDate stock
        /\ Stock.currentPrice stock' = Stock.currentPrice stock
        /\ Stock.totalValue stock' = mul (Stock.shares stock') (Stock.currentPrice stock)
        /\ (upd_shares req = Absent -> Stock.shares stock' = Stock.shares stock)
        /\ (upd_purchasePrice req = Absent ->
            Stock.purchasePrice stock' = Stock.purchasePrice stock)).
Proof.
  split; [| split].
  - intros portfolio -> Hno. unfold put_update.
    destruct (findIndex (has_id stockId) portfolio) as [i |] eqn:E; [| reflexivity].
    destruct (findIndex_split _ _ _ E) as (b & x & a & -> & _ & _ & Hx).
    rewrite Hno in Hx; [discriminate | apply in_or_app; right; left; reflexivity].
  - intros ->. reflexivity.
  - intros before stock after -> Hb Hs stock'. unfold put_update.
    rewrite (findIndex_first _ before after stock Hb Hs).
    rewrite list_lookup_middle by reflexivity.
    assert (E : <[length before := update_entry parse_text stock req]> (before ++ stock :: after)
                = before ++ stock' :: after).
    { rewrite insert_app_r_alt by lia. rewrite Nat.sub_diag. reflexivity. }
    cbv zeta. rewrite E.
    split; [reflexivity |].
    repeat split.
    + intros Hnone. unfold stock', update_entry. cbn [Stock.shares]. rewrite Hnone. reflexivity.
    + intros Hnone. unfold stock', update_entry. cbn [Stock.purchasePrice].
      rewrite Hnone. reflexivity.
Qed.

Lemma delete_remove_first (stockId : string) (before after : list Stock.t) (stock : Stock.t) :
  (forall x, In x before -> has_id stockId x = false) ->
  has_id stockId stock = true ->
  delete_remove stockId (Some (before ++ stock :: after))
  = (Listed (before ++ after) (calculateTotalValue (before ++ after)),
     Some (before ++ after)).
Proof.
  intros Hb Hs. unfold delete_remove.
  rewrite (findIndex_first _ before after stock Hb Hs).
  rewrite delete_middle. reflexivity.
Qed.

(** X20.  In the router with the in-memory store, a removal deletes the
    first entry with the given id and only that one, keeping the others in
    order, also when a later entry has the same id; with no such entry, or no
    portfolio, the answer is a 404 and the store is as it was. *)
Theorem delete_remove_effect (stockId : string) (store : option (list Stock.t)) :
  (forall portfolio, store = Some portfolio ->
     (forall x, In x portfolio -> has_id stockId x = false) ->
     delete_remove stockId store = (NotFound "Stock not found in portfolio", store))
  /\ (store = None -> delete_remove stockId store = (NotFound "Portfolio not found", store))
  /\ (forall before stock after,
        store = Some (before ++ stock :: after) ->
        (forall x, In x before -> has_id stockId x = false) ->
        has_id stockId stock = true ->
        delete_remove stockId store
        = (Listed (before ++ after) (calculateTotalValue (before ++ after)),
           Some (before ++ after))).
Proof.
  split; [| split].
  - intros portfolio -> Hno. unfold delete_remove.
    destruct (findIndex (has_id stockId) portfolio) as [i |] eqn:E; [| reflexivity].
    destruct (findIndex_split _ _ _ E) as (b & x & a & -> & _ & _ & Hx).
    rewrite Hno in Hx; [discriminate | apply in_or_app; right; left; reflexivity].
  - intros ->. reflexivity.
  - intros before stock after -> Hb Hs. apply delete_remove_first; assumption.
Qed.

(** X22.  The router's total gain percentage is guarded like the service's:
    it is [0] on an empty portfolio and, in exact arithmetic, a finite number
    whenever the shares, purchase prices and gains of the entries are
    finite. *)
Theorem calculateTotalGainLossPercentage_finite (portfolio : list Holding.t) :
  calculateTotalGainLossPercentage [] = Fin 0
  /\ ((forall x, In x portfolio ->
         is_fin (Holding.shares x) = true /\ is_fin (Holding.purchasePrice x) = true
         /\ is_fin (Holding.gainLoss x) = true) ->
      is_fin (calculateTotalGainLossPercentage portfolio) = true).
Proof.
  split; [reflexivity |]. intros H.
  destruct portfolio as [| x rest]; [reflexivity |].
  unfold calculateTotalGainLossPercentage. cbv zeta.
  apply guarded_percent_fin.
  - apply (is_fin_fold_add Holding.gainLoss); [reflexivity |].
    intros y Hy. apply H, Hy.
  - apply (is_fin_fold_add (fun stock => mul (Holding.shares stock) (Holding.purchasePrice stock)));
      [reflexivity |].
    intros y Hy. destruct (H y Hy) as (H1 & H2 & _). apply is_fin_mul; assumption.
Qed.

(** ** [getMarketOverview] *)

(** X23.  The overview is all or nothing: when it is not served from the
    cache and the fetch for one of the four indices is rejected, the call
    fails and the stored overview, if any, is left as it was. *)
Theorem getMarketOverview_all_or_nothing (sv : Service) (s : string) :
  getCachedOverview sv = None ->
  In s indices -> rejected (world sv) s ->
  fst (getMarketOverview sv) = Err "Failed to fetch market overview"
  /\ overview (snd (getMarketOverview sv)) = overview sv.
Proof.
  intros Hmiss Hin Hrej. unfold getMarketOverview. rewrite Hmiss.
  pose proof (getMultipleQuotes_rejected indices (world sv) s Hin Hrej) as E.
  destruct (getMultipleQuotes indices (world sv)) as [[quotes | msg] w1];
    [discriminate |].
  split; reflexivity.
Qed.

(** X24.  An overview that was built is served as it is for the next five
    minutes: a call less than five minutes after it was stored returns the
    same record and changes nothing, so the provider is not asked, whatever
    the provider would answer by then and whatever the quote cache holds. *)
Theorem getMarketOverview_served_from_cache (sv sv1 later : Service) (d : MarketData) :
  getCachedOverview sv = None ->
  getMarketOverview sv = (Ok d, sv1) ->
  overview later = overview sv1 ->
  (clock (world later) - clock (world sv1) < cacheTimeout)%Z ->
  getMarketOverview later = (Ok d, later).
Proof.
  intros Hmiss E Hov Hfresh. unfold getMarketOverview in E. rewrite Hmiss in E.
  destruct (getMultipleQuotes indices (world sv)) as [[quotes | msg] w1];
    [| discriminate].
  injection E as <- <-. cbn [overview world] in Hov, Hfresh.
  unfold getMarketOverview, getCachedOverview. rewrite Hov.
  destruct (Z.ltb_spec (clock (world later) - clock w1) cacheTimeout); [reflexivity | lia].
Qed.

Lemma find_index_present (quotes : list Quote.t) (name : string) (q : Quote.t) :
  In q quotes -> Quote.symbol q = name ->
  exists i, formatIndexData (find_index quotes name) = Some i /\ index_symbol i = name.
Proof.
  intros Hin Hs. unfold find_index.
  destruct (find _ quotes) as [q' |] eqn:E.
  - eexists. split; [reflexivity |]. simpl.
    apply find_some in E as [_ E]. apply String.eqb_eq, E.
  - exfalso. pose proof (find_none _ _ E q Hin) as Hn. simpl in Hn.
    rewrite Hs, String.eqb_refl in Hn. discriminate.
Qed.

(** X25.  When the provider answers under the symbol it is asked for, an
    overview that is built has all four indices, each under its own symbol
    (an index is [null] only if no returned quote carries its symbol). *)
Theorem getMarketOverview_complete (sv sv1 : Service) (d : MarketData) :
  echoes (world sv) ->
  getCachedOverview sv = None ->
  getMarketOverview sv = (Ok d, sv1) ->
  (exists i, sp500 d = Some i /\ index_symbol i = "^GSPC")
  /\ (exists i, dowJones d = Some i /\ index_symbol i = "^DJI")
  /\ (exists i, nasdaq d = Some i /\ index_symbol i = "^IXIC")
  /\ (exists i, russell2000 d = Some i /\ index_symbol i = "^RUT").
Proof.
  intros Hecho Hmiss E. unfold getMarketOverview in E. rewrite Hmiss in E.
  destruct (getMultipleQuotes_spec indices (world sv))
    as (w2 & _ & _ & [(qs & E2 & Hf) | (E2 & _)]); rewrite E2 in E; [| discriminate].
  injection E as <- <-. cbn [sp500 dowJones nasdaq russell2000].
  assert (H : forall name, In name indices ->
            exists i, formatIndexData (find_index qs name) = Some i
                      /\ index_symbol i = name).
  { intros name Hin. destruct (Forall2_In_l _ _ _ _ Hf Hin) as (q & Hq & Hset).
    apply (find_index_present qs name q Hq). apply (settles_symbol (world sv)); assumption. }
  repeat split; apply H; simpl; auto.
Qed.

(** ** The further theorems at the sample data *)

Lemma calculateSMA_within_window_witness :
  exists m, calculateSMA sample_prices 5 = Fin m /\ 101 <= m <= 110.
Proof.
  apply (calculateSMA_within_window sample_prices 5 101 110).
  - reflexivity.
  - simpl. lia.
  - intros q Hq. vm_compute in Hq.
    destruct Hq as [H | [H | [H | [H | [H | []]]]]]; injection H as <-; split; discriminate.
Defined.

Lemma calculateSMA_constant_witness :
  same (calculateSMA (repeat (Fin 7) 6) 4) (Fin 7).
Proof. apply (calculateSMA_constant 7 6 4). lia. Defined.

Lemma calculateSMA_ignores_older_witness :
  calculateSMA ([Fin 1; Fin 2] ++ [Fin 5; Fin 7]) 2 = calculateSMA [Fin 5; Fin 7] 2.
Proof. apply (calculateSMA_ignores_older [Fin 1; Fin 2] [Fin 5; Fin 7]). discriminate. Defined.

Lemma calculateRSI_never_falls_witness : calculateRSI rising_prices 3 = Fin 100.
Proof.
  apply calculateRSI_never_falls; [reflexivity | reflexivity | lia | simpl; lia].
Defined.

Lemma calculateRSI_always_falls_witness : same (calculateRSI falling_prices 3) (Fin 0).
Proof.
  apply calculateRSI_always_falls; [reflexivity | reflexivity | lia | simpl; lia].
Defined.

Lemma calculatePriceChange_zero_reference_witness :
  is_fin (calculatePriceChange [Fin 0; Fin 5] 1) = false
  /\ calculatePriceChange [Fin 0; Fin 7; Fin 0] 2 = NaN.
Proof.
  split.
  - apply (calculatePriceChange_zero_reference [Fin 0; Fin 5] 1 5 0);
      [simpl; lia | reflexivity | reflexivity | reflexivity].
  - apply (calculatePriceChange_zero_reference [Fin 0; Fin 7; Fin 0] 2 0 0);
      [simpl; lia | reflexivity | reflexivity | reflexivity | reflexivity].
Defined.

Lemma priceChange_on_usable_closes_witness :
  exists current previous,
    usable_numbers sample_column !! 1%nat = Some previous
    /\ falsy previous = false /\ is_nan previous = false
    /\ calculatePriceChange (usable_numbers sample_column) 1
       = mul (div (sub current previous) previous) (Fin 100).
Proof.
  destruct (priceChange_on_usable_closes sample_column 1)
    as (current & previous & _ & Hprev & Hf & Hn & E).
  - simpl. lia.
  - exists current, previous. auto.
Defined.

Lemma volumeRatio_finite_witness :
  is_fin (volumeRatio sample_volumes) = true /\ volumeRatio [Fin 1000] = Fin 0.
Proof.
  split.
  - apply (volumeRatio_finite sample_volumes). reflexivity.
  - apply (volumeRatio_finite [Fin 1000]); [reflexivity | simpl; lia].
Defined.

Lemma getStockQuote_failure_not_cached_witness :
  fst (getStockQuote "Y" world0) = Err ("Failed to fetch data for " +:+ "Y")
  /\ calls (snd (getStockQuote "Y" (elapse 10 (snd (getStockQuote "Y" world0))))) = ["Y"; "Y"].
Proof.
  destruct (getStockQuote_failure_not_cached "Y" world0) as (Hfail & _ & _ & Hretry).
  - split; reflexivity.
  - split; [exact Hfail |]. apply Hretry; discriminate.
Defined.

Lemma getStockQuote_other_keys_witness :
  cache (snd (getStockQuote "X" world0)) !! quote_key "Y" = None.
Proof.
  rewrite (getStockQuote_other_keys "X" (quote_key "Y") world0); [reflexivity |].
  intros H. discriminate H.
Defined.

Lemma getMultipleQuotes_one_per_symbol_witness :
  exists quotes w', getMultipleQuotes ["X"; "X"] world0 = (Ok quotes, w')
                    /\ length quotes = 2%nat.
Proof.
  destruct (getMultipleQuotes ["X"; "X"] world0) as [[quotes | msg] w'] eqn:E.
  - exists quotes, w'. split; [reflexivity |].
    apply (getMultipleQuotes_one_per_symbol ["X"; "X"] world0 w' quotes E).
  - vm_compute in E. discriminate E.
Defined.

Lemma world0_echoes : echoes world0.
Proof.
  split.
  - intros s raw. unfold world0, sample_market. simpl.
    destruct (String.eqb_spec s "X"); [| discriminate]. intros [= <-]. subst s. reflexivity.
  - intros s e H. discriminate H.
Qed.

Lemma world0_finite_quotes : finite_quotes world0.
Proof.
  split.
  - intros s raw. unfold world0, sample_market. simpl.
    destruct (String.eqb s "X"); [| discriminate]. intros [= <-]. reflexivity.
  - intros k e H. discriminate H.
Qed.

Lemma valuation_lists_every_holding_witness :
  exists v w',
    calculatePortfolioValue [holdingX] world0 = (Ok v, w')
    /\ Forall2 (fun h x => exists q, Quote.symbol q = Holding.symbol h
                                     /\ x = value_holding h q)
         [holdingX] (Valuation.holdings v).
Proof.
  destruct (calculatePortfolioValue [holdingX] world0) as [[v | msg] w'] eqn:E.
  - exists v, w'. split; [reflexivity |].
    apply (valuation_lists_every_holding [holdingX] world0 w' v world0_echoes E).
  - vm_compute in E. discriminate E.
Defined.

Lemma valuation_totals_finite_witness :
  exists v w',
    calculatePortfolioValue [holdingZero] world0 = (Ok v, w')
    /\ is_fin (Valuation.totalGainLossPercent v) = true.
Proof.
  destruct (calculatePortfolioValue [holdingZero] world0) as [[v | msg] w'] eqn:E.
  - exists v, w'. split; [reflexivity |].
    destruct (valuation_totals_finite [holdingZero] world0 w' v eq_refl
                world0_finite_quotes E) as (_ & _ & H & _).
    exact H.
  - vm_compute in E. discriminate E.
Defined.

Lemma put_update_effect_witness :
  put_update sample_parse "1700000000002" (mkUpdate Absent (StringField "25")) (Some two_stocks)
  = (Listed [stockA; update_entry sample_parse stockB (mkUpdate Absent (StringField "25"))]
       (calculateTotalValue
          [stockA; update_entry sample_parse stockB (mkUpdate Absent (StringField "25"))]),
     Some [stockA; update_entry sample_parse stockB (mkUpdate Absent (StringField "25"))])
  /\ Stock.shares (update_entry sample_parse stockB (mkUpdate Absent (StringField "25")))
     = Stock.shares stockB
  /\ put_update sample_parse "9" (mkUpdate Absent Absent) (Some two_stocks)
     = (NotFound "Stock not found in portfolio", Some two_stocks).
Proof.
  destruct (put_update_effect sample_parse "1700000000002"
              (mkUpdate Absent (StringField "25")) (Some two_stocks))
    as (_ & _ & Hfound).
  destruct (Hfound [stockA] stockB []) as (Hstore & _ & _ & _ & _ & _ & Hshares & _).
  - reflexivity.
  - intros x [<- | []]. reflexivity.
  - reflexivity.
  - split; [exact Hstore |]. split; [apply Hshares; reflexivity |].
    destruct (put_update_effect sample_parse "9" (mkUpdate Absent Absent) (Some two_stocks))
      as (Hnone & _).
    apply (Hnone two_stocks); [reflexivity |].
    intros x [<- | [<- | []]]; reflexivity.
Defined.

Lemma delete_remove_effect_witness :
  delete_remove "1700000000001" (Some two_stocks)
  = (Listed [stockB] (calculateTotalValue [stockB]), Some [stockB])
  /\ delete_remove "9" (Some two_stocks)
     = (NotFound "Stock not found in portfolio", Some two_stocks).
Proof.
  destruct (delete_remove_effect "1700000000001" (Some two_stocks)) as (_ & _ & Hfound).
  destruct (delete_remove_effect "9" (Some two_stocks)) as (Hnone & _).
  split.
  - apply (Hfound [] stockA [stockB]); [reflexivity | intros x [] | reflexivity].
  - apply (Hnone two_stocks); [reflexivity |].
    intros x [<- | [<- | []]]; reflexivity.
Defined.

Lemma calculateTotalGainLossPercentage_finite_witness :
  is_fin (calculateTotalGainLossPercentage two_holdings) = true.
Proof.
  apply (calculateTotalGainLossPercentage_finite two_holdings).
  intros x [<- | [<- | []]]; repeat split.
Defined.

Lemma getMarketOverview_all_or_nothing_witness :
  fst (getMarketOverview (mkService world0 None)) = Err "Failed to fetch market overview".
Proof.
  apply (getMarketOverview_all_or_nothing (mkService world0 None) "^GSPC").
  - reflexivity.
  - left. reflexivity.
  - split; reflexivity.
Defined.

Lemma getMarketOverview_served_from_cache_witness :
  exists d sv1,
    getMarketOverview service0 = (Ok d, sv1)
    /\ getMarketOverview (mkService (elapse 299999 (world sv1)) (overview sv1))
       = (Ok d, mkService (elapse 299999 (world sv1)) (overview sv1)).
Proof.
  destruct (getMarketOverview service0) as [[d | msg] sv1] eqn:E.
  - exists d, sv1. split; [reflexivity |].
    apply (getMarketOverview_served_from_cache service0 sv1 _ d);
      [reflexivity | exact E | reflexivity |].
    simpl. unfold cacheTimeout. lia.
  - vm_compute in E. discriminate E.
Defined.

Lemma service0_echoes : echoes (world service0).
Proof.
  split.
  - intros s raw H. simpl in H. injection H as <-. reflexivity.
  - intros s e H. discriminate H.
Qed.

Lemma getMarketOverview_complete_witness :
  exists d sv1 i,
    getMarketOverview service0 = (Ok d, sv1)
    /\ sp500 d = Some i /\ index_symbol i = "^GSPC".
Proof.
  destruct (getMarketOverview service0) as [[d | msg] sv1] eqn:E.
  - destruct (getMarketOverview_complete service0 sv1 d service0_echoes eq_refl E)
      as ((i & Hi & Hs) & _).
    exists d, sv1, i. auto.
  - vm_compute in E. discriminate E.
Defined.
